(** * Jira issues plugin: the issue card and the proxy route

    A shallow embedding of the two source files of the plugin:
    - the frontend card (helpers [getStatusColor], [formatTimeAgo], the
      callback [fetchIssues], the memoised filter vocabularies and
      [filteredIssues]);
    - the backend route [GET /issues/:projectKey].

    Conventions.
    - A JavaScript string is a [string]: the sequence of its bytes.  The
      operations used by the code ([includes], [toLowerCase], [!==],
      [encodeURIComponent], the default [sort] order) are modelled on that
      sequence; case mapping covers the ASCII letters.
    - An instant or a duration in milliseconds is a [Z]; [Date.now()] only
      produces integers, and [Math.floor (a / b)] on integers with [0 < b]
      is [a / b] of [Z] (rounding towards minus infinity).
    - [`${n}`] for an integer [n] is its decimal numeral, [pretty n]. *)

From Stdlib Require Import ZArith Ascii String List Sorting.Sorted Permutation OrdersEx.
From stdpp Require Import base tactics option list strings pretty gmap sorting.

Local Open Scope Z_scope.

(** ** JavaScript values and string operations used by both files *)

Module Js.

(** A string in a boolean position: only the empty string is falsy. *)
Definition truthy (s : string) : bool := negb (String.eqb s "").

(** [a !== b] where [a] may be [undefined] ([None]) and [b] is a string. *)
Definition strict_ne (a : option string) (b : string) : bool :=
  match a with
  | Some s => negb (String.eqb s b)
  | None => true
  end.

Definition is_upper (c : ascii) : bool :=
  let n := N_of_ascii c in (65 <=? n)%N && (n <=? 90)%N.

Definition lower_char (c : ascii) : ascii :=
  if is_upper c then ascii_of_N (N_of_ascii c + 32) else c.

(** [s.toLowerCase()] *)
Fixpoint toLowerCase (s : string) : string :=
  match s with
  | EmptyString => EmptyString
  | String c s' => String (lower_char c) (toLowerCase s')
  end.

(** [s.includes(k)]: [k] occurs in [s] at some position. *)
Fixpoint includes (s k : string) : bool :=
  String.prefix k s ||
  match s with
  | EmptyString => false
  | String _ s' => includes s' k
  end.

(** What a [throw] carries: an [Error] object with its message, or any
    other value. *)
Inductive Thrown : Type :=
| ErrorObj (message : string)
| NonError.

(** [e instanceof Error ? e.message : fallback] *)
Definition message_or (fallback : string) (e : Thrown) : string :=
  match e with
  | ErrorObj m => m
  | NonError => fallback
  end.

(** The comparison of the default [Array.prototype.sort] on strings:
    [a] goes before [b] unless [b < a] in the order of the code units. *)
Definition before (a b : string) : Prop := String_as_OT.compare b a <> Lt.

#[global] Instance before_dec a b : Decision (before a b).
Proof. unfold before. destruct (String_as_OT.compare b a); [left| right |left]; congruence. Defined.

(** [new Set(l)] followed by [Array.from]: the elements in the order of
    their first insertion. *)
Fixpoint Set_add_all (seen l : list string) : list string :=
  match l with
  | [] => seen
  | x :: l' =>
      if bool_decide (x ∈ seen) then Set_add_all seen l'
      else Set_add_all (seen ++ [x]) l'
  end.

Definition Set_from (l : list string) : list string := Set_add_all [] l.

(** [l.sort()] on an array of strings. *)
Definition sort (l : list string) : list string := merge_sort before l.

(** [response.ok] *)
Definition ok (status : Z) : bool := (200 <=? status) && (status <=? 299).

End Js.

(** ** Relative time label *)

Module TimeAgo.

(** [`${n} ${unit}${n > 1 ? 's' : ''} ago`] *)
Definition label (n : Z) (unit : string) : string :=
  pretty n +:+ " " +:+ unit +:+ (if bool_decide (n > 1) then "s" else "") +:+ " ago".

(** [formatTimeAgo], with the clock reading [Date.now()] as [now]. *)
Definition formatTimeAgo (now timestamp : Z) : string :=
  let seconds := (now - timestamp) / 1000 in
  if bool_decide (seconds < 60) then "just now" else
  let minutes := seconds / 60 in
  if bool_decide (minutes < 60) then label minutes "minute" else
  let hours := minutes / 60 in
  if bool_decide (hours < 24) then label hours "hour" else
  let days := hours / 24 in
  label days "day".

End TimeAgo.

(** ** Status chip colour *)

Module StatusColor.

Inductive ChipColor : Type := primary | secondary | default.

Record Style : Type := { backgroundColor : string; color : string }.

Record ColorConfig : Type := { chip : ChipColor; style : option Style }.

Definition filled (bg : string) : option Style :=
  Some {| backgroundColor := bg; color := "white" |}.

Definition getStatusColor (status : string) : ColorConfig :=
  let statusLower := Js.toLowerCase status in
  (* Done states *)
  if Js.includes statusLower "done" || Js.includes statusLower "closed"
     || Js.includes statusLower "resolved"
  then {| chip := primary; style := None |}
  (* In Progress states *)
  else if Js.includes statusLower "progress"
  then {| chip := primary; style := filled "#1976d2" |}
  (* Review states *)
  else if Js.includes statusLower "review"
  then {| chip := secondary; style := filled "#9c27b0" |}
  (* To Do / New states *)
  else if Js.includes statusLower "to do" || Js.includes statusLower "new"
          || Js.includes statusLower "open"
  then {| chip := default; style := filled "#ff9800" |}
  (* Blocked / On Hold states *)
  else if Js.includes statusLower "block" || Js.includes statusLower "hold"
          || Js.includes statusLower "wait"
  then {| chip := default; style := filled "#f44336" |}
  (* Testing / QA states *)
  else if Js.includes statusLower "test" || Js.includes statusLower "qa"
  then {| chip := default; style := filled "#009688" |}
  (* Release Pending states *)
  else if Js.includes statusLower "release" && Js.includes statusLower "pending"
  then {| chip := primary; style := filled "#4caf50" |}
  else {| chip := default; style := None |}.

(** The table the if-chain of [getStatusColor] is meant to implement: the
    keyword groups in their order, each with how its keywords combine and
    with its colour. *)
Inductive Combine : Type := AnyOf | AllOf.

Record Group : Type := { combine : Combine; keywords : list string; paint : ColorConfig }.

Definition groups : list Group :=
  [ {| combine := AnyOf; keywords := ["done"; "closed"; "resolved"];
       paint := {| chip := primary; style := None |} |};
    {| combine := AnyOf; keywords := ["progress"];
       paint := {| chip := primary; style := filled "#1976d2" |} |};
    {| combine := AnyOf; keywords := ["review"];
       paint := {| chip := secondary; style := filled "#9c27b0" |} |};
    {| combine := AnyOf; keywords := ["to do"; "new"; "open"];
       paint := {| chip := default; style := filled "#ff9800" |} |};
    {| combine := AnyOf; keywords := ["block"; "hold"; "wait"];
       paint := {| chip := default; style := filled "#f44336" |} |};
    {| combine := AnyOf; keywords := ["test"; "qa"];
       paint := {| chip := default; style := filled "#009688" |} |};
    {| combine := AllOf; keywords := ["release"; "pending"];
       paint := {| chip := primary; style := filled "#4caf50" |} |} ].

Definition neutral : ColorConfig := {| chip := default; style := None |}.

(** [k] occurs in [status] whatever the case of the letters of [status]. *)
Definition mentions (status k : string) : bool :=
  Js.includes (Js.toLowerCase status) k.

Definition group_matches (status : string) (g : Group) : bool :=
  match combine g with
  | AnyOf => existsb (mentions status) (keywords g)
  | AllOf => forallb (mentions status) (keywords g)
  end.

(** First matching group wins; no match yields the neutral default. *)
Definition first_match (status : string) : ColorConfig :=
  match List.find (group_matches status) groups with
  | Some g => paint g
  | None => neutral
  end.

(** The table as the specification words it: the same groups and
    colours, with the keywords "in-progress", "to-do" and "blocked" where
    the code has "progress", "to do" and "block". *)
Definition worded_groups : list Group :=
  [ {| combine := AnyOf; keywords := ["done"; "closed"; "resolved"];
       paint := {| chip := primary; style := None |} |};
    {| combine := AnyOf; keywords := ["in-progress"];
       paint := {| chip := primary; style := filled "#1976d2" |} |};
    {| combine := AnyOf; keywords := ["review"];
       paint := {| chip := secondary; style := filled "#9c27b0" |} |};
    {| combine := AnyOf; keywords := ["to-do"; "new"; "open"];
       paint := {| chip := default; style := filled "#ff9800" |} |};
    {| combine := AnyOf; keywords := ["blocked"; "hold"; "wait"];
       paint := {| chip := default; style := filled "#f44336" |} |};
    {| combine := AnyOf; keywords := ["test"; "qa"];
       paint := {| chip := default; style := filled "#009688" |} |};
    {| combine := AllOf; keywords := ["release"; "pending"];
       paint := {| chip := primary; style := filled "#4caf50" |} |} ].

Definition worded_match (status : string) : ColorConfig :=
  match List.find (group_matches status) worded_groups with
  | Some g => paint g
  | None => neutral
  end.

#[global] Instance ChipColor_eq_dec : EqDecision ChipColor.
Proof. solve_decision. Defined.

#[global] Instance Style_eq_dec : EqDecision Style.
Proof. solve_decision. Defined.

#[global] Instance ColorConfig_eq_dec : EqDecision ColorConfig.
Proof. solve_decision. Defined.

End StatusColor.

(** ** The issue card *)

Module Card.

(** [interface JiraIssue] *)
Record Named : Type := { name : string }.

Record Assignee : Type := { displayName : string; emailAddress : option string }.

Record Fields : Type := {
  summary : string;
  status : option Named;
  assignee : option Assignee;
  priority : option Named;
  issuetype : option Named
}.

Record JiraIssue : Type := { key : string; fields : Fields }.

(** [interface CachedData] *)
Record CachedData : Type := { cached_issues : list JiraIssue; timestamp : Z }.

(** Cache duration: 3 hours in milliseconds *)
Definition CACHE_DURATION : Z := 3 * 60 * 60 * 1000.

(** The optional chains [issue.fields.issuetype?.name] and the like. *)
Definition issuetype_name (i : JiraIssue) : option string := name <$> issuetype (fields i).
Definition assignee_displayName (i : JiraIssue) : option string := displayName <$> assignee (fields i).
Definition status_name (i : JiraIssue) : option string := name <$> status (fields i).
Definition priority_name (i : JiraIssue) : option string := name <$> priority (fields i).

(** *** Filters *)

(** The four [selected...] state variables; [""] is "all". *)
Record FilterSelection : Type := {
  selectedType : string;
  selectedAssignee : string;
  selectedStatus : string;
  selectedPriority : string
}.

(** The callback given to [issues.filter]. *)
Definition keep (sel : FilterSelection) (issue : JiraIssue) : bool :=
  if Js.truthy (selectedType sel) && Js.strict_ne (issuetype_name issue) (selectedType sel)
  then false
  else if Js.truthy (selectedAssignee sel)
          && Js.strict_ne (assignee_displayName issue) (selectedAssignee sel)
  then false
  else if Js.truthy (selectedStatus sel) && Js.strict_ne (status_name issue) (selectedStatus sel)
  then false
  else if Js.truthy (selectedPriority sel)
          && Js.strict_ne (priority_name issue) (selectedPriority sel)
  then false
  else true.

Definition filteredIssues (issues : list JiraIssue) (sel : FilterSelection) : list JiraIssue :=
  List.filter (keep sel) issues.

(** What the specification asks of a displayed issue: on each dimension
    either the filter is empty or the issue has the field and it is the
    selected string. *)
Definition matches_field (selected : string) (field : option string) : Prop :=
  selected = "" ∨ field = Some selected.

Definition matches (sel : FilterSelection) (issue : JiraIssue) : Prop :=
  matches_field (selectedType sel) (issuetype_name issue)
  ∧ matches_field (selectedAssignee sel) (assignee_displayName issue)
  ∧ matches_field (selectedStatus sel) (status_name issue)
  ∧ matches_field (selectedPriority sel) (priority_name issue).

#[global] Instance matches_field_dec (selected : string) (field : option string) :
  Decision (matches_field selected field).
Proof. unfold matches_field. apply _. Defined.

#[global] Instance matches_dec (sel : FilterSelection) (issue : JiraIssue) :
  Decision (matches sel issue).
Proof. unfold matches. apply _. Defined.

(** *** Filter vocabularies *)

(** [Boolean] as the callback of [filter], on a string or [undefined]. *)
Definition Boolean (v : option string) : bool :=
  match v with
  | Some s => Js.truthy s
  | None => false
  end.

(** [Array.from(new Set(issues.map(field).filter(Boolean))).sort()] *)
Definition vocabulary (field : JiraIssue → option string) (issues : list JiraIssue) : list string :=
  Js.sort (Js.Set_from (omap id (List.filter Boolean (map field issues)))).

Definition types := vocabulary issuetype_name.
Definition assignees := vocabulary assignee_displayName.
Definition statuses := vocabulary status_name.
Definition priorities := vocabulary priority_name.

(** What the specification asks of a vocabulary: strictly increasing, with
    as members the non-empty values that some loaded issue has. *)
Definition vocabulary_of (field : JiraIssue → option string) (issues : list JiraIssue)
    (v : list string) : Prop :=
  StronglySorted String_as_OT.lt v
  ∧ NoDup v
  ∧ ∀ x, x ∈ v ↔ x ≠ "" ∧ ∃ i, i ∈ issues ∧ field i = Some x.

(** *** Sample data *)

Definition issue_of (k : string) (type status : option string) : JiraIssue :=
  {| key := k;
     fields := {| summary := ""; status := (λ n, {| name := n |}) <$> status;
                  assignee := None; priority := None;
                  issuetype := (λ n, {| name := n |}) <$> type |} |}.

Definition only_status (s : string) : FilterSelection :=
  {| selectedType := ""; selectedAssignee := ""; selectedStatus := s; selectedPriority := "" |}.

(** *** Fetching *)

(** [JSON.parse] at the type [CachedData] ([None]: it throws) and
    [JSON.stringify]; the empty text is not JSON. *)
Class Json : Type := {
  JSON_parse : string → option CachedData;
  JSON_stringify : CachedData → string;
  JSON_parse_empty : JSON_parse "" = None
}.

(** The component state written by [fetchIssues], and the browser's
    [localStorage]. *)
Record State : Type := {
  issues : list JiraIssue;
  loading : bool;
  lastUpdated : option Z;
  localStorage : gmap string string
}.

Definition setIssues (l : list JiraIssue) (st : State) : State :=
  {| issues := l; loading := loading st; lastUpdated := lastUpdated st;
     localStorage := localStorage st |}.

Definition setLoading (b : bool) (st : State) : State :=
  {| issues := issues st; loading := b; lastUpdated := lastUpdated st;
     localStorage := localStorage st |}.

Definition setLastUpdated (t : Z) (st : State) : State :=
  {| issues := issues st; loading := loading st; lastUpdated := Some t;
     localStorage := localStorage st |}.

(** The state once the store has taken [v] under [k]. *)
Definition with_item (k v : string) (st : State) : State :=
  {| issues := issues st; loading := loading st; lastUpdated := lastUpdated st;
     localStorage := <[k := v]> (localStorage st) |}.

(** [localStorage.setItem(k, v)]: the store takes the value, or refuses
    it and throws ([refusal]: what it throws, as when the quota is
    exceeded), leaving everything as it was. *)
Definition setItem (refusal : option Js.Thrown) (k v : string) (st : State)
    : Js.Thrown + State :=
  match refusal with
  | Some e => inl e
  | None => inr (with_item k v st)
  end.

(** What [res.json()] gives: it rejects, or the body is [null], or it is
    a value whose property [issues] is an array or is absent. *)
Inductive Payload : Type :=
| NotJson (e : Js.Thrown)
| JsonNull
| JsonData (data_issues : option (list JiraIssue)).

(** What [fetch] gives: it rejects, or it resolves to a response. *)
Inductive Reply : Type :=
| Rejected (e : Js.Thrown)
| Replied (res_status : Z) (body : Payload).

(** The surroundings of one call: the clock at the cache check, the clock
    after the response, the answer of the backend if it is asked, and
    what the store throws if it refuses a write. *)
Record Env : Type := {
  now_lookup : Z;
  now_fetched : Z;
  reply : Reply;
  refusal : option Js.Thrown
}.

(** What one call does to the outside, in order. *)
Inductive Event : Type :=
| NetworkCall (url : string)
| ConsoleWarn (msg : string)
| ConsoleError (msg : string) (err : Js.Thrown).

(** [entity.metadata.annotations?.['jira/project-key']] is a string or
    [undefined]. *)
Definition present (projectKey : option string) : bool :=
  match projectKey with
  | Some k => Js.truthy k
  | None => false
  end.

Definition template (projectKey : option string) : string :=
  match projectKey with
  | Some k => k
  | None => "undefined"
  end.

Definition cacheKey (projectKey : option string) : string :=
  "jira-issues-" +:+ template projectKey.

(** The error a [TypeError] on reading a property of [null] carries. *)
Definition TypeError_null (prop : string) : Js.Thrown :=
  Js.ErrorObj ("Cannot read properties of null (reading '" +:+ prop +:+ "')").

(** The cache check of [fetchIssues]: the snapshot to use, if any, and
    what was logged. *)
Definition lookup_cache `{Json} (projectKey : option string) (forceRefresh : bool)
    (env : Env) (st : State) : option CachedData * list Event :=
  if negb forceRefresh then
    match localStorage st !! cacheKey projectKey with
    | Some cached =>
        if Js.truthy cached then
          match JSON_parse cached with
          | Some cachedData =>
              let age := now_lookup env - timestamp cachedData in
              if bool_decide (age < CACHE_DURATION) then (Some cachedData, [])
              else (None, [])
          | None => (None, [ConsoleWarn "Invalid cache data, fetching fresh data"])
          end
        else (None, [])
    | None => (None, [])
    end
  else (None, []).

(** The body of the [try] after [setLoading(true)]: the state it leaves
    and the error it throws, if any. *)
Definition fetch_fresh `{Json} (projectKey : option string) (env : Env) (st : State)
    : State * option Js.Thrown :=
  match reply env with
  | Rejected e => (st, Some e)
  | Replied res_status body =>
      if negb (Js.ok res_status)
      then (st, Some (Js.ErrorObj ("HTTP error! status: " +:+ pretty res_status)))
      else
        match body with
        | NotJson e => (st, Some e)
        | JsonNull => (st, Some (TypeError_null "issues"))
        | JsonData data_issues =>
            let fetchedIssues := default [] data_issues in
            let timestamp := now_fetched env in
            let st := setIssues fetchedIssues st in
            let st := setLastUpdated timestamp st in
            let cacheData := {| cached_issues := fetchedIssues; timestamp := timestamp |} in
            match setItem (refusal env) (cacheKey projectKey) (JSON_stringify cacheData) st with
            | inl e => (st, Some e)
            | inr st => (st, None)
            end
        end
  end.

(** The address of the backend route for a project. *)
Definition backend_url (projectKey : option string) : string :=
  "http://localhost:7007/api/jira-issues/issues/" +:+ template projectKey.

(** [fetchIssues(forceRefresh)] *)
Definition fetchIssues `{Json} (projectKey : option string) (forceRefresh : bool)
    (env : Env) (st : State) : State * list Event :=
  if negb (present projectKey) then (st, []) else
  match lookup_cache projectKey forceRefresh env st with
  | (Some cachedData, log) =>
      let st := setIssues (cached_issues cachedData) st in
      let st := setLastUpdated (timestamp cachedData) st in
      (setLoading false st, log)
  | (None, log) =>
      let st := setLoading true st in
      let call := NetworkCall (backend_url projectKey) in
      match fetch_fresh projectKey env st with
      | (st, Some err) =>
          (setLoading false st, log ++ [call; ConsoleError "Failed to fetch Jira issues:" err])
      | (st, None) => (setLoading false st, log ++ [call])
      end
  end.

(** [handleRefresh] *)
Definition handleRefresh `{Json} (projectKey : option string) (env : Env) (st : State)
    : State * list Event :=
  fetchIssues projectKey true env st.

(** The network calls among the events of a run. *)
Definition network_calls (log : list Event) : list string :=
  omap (λ e, match e with NetworkCall url => Some url | _ => None end) log.

(** The snapshot the specification lets a lookup use: stored under the
    key of the project, parseable, and younger than the duration. *)
Definition usable_snapshot `{Json} (projectKey : option string) (env : Env) (st : State)
    (c : CachedData) : Prop :=
  ∃ cached, localStorage st !! cacheKey projectKey = Some cached
            ∧ JSON_parse cached = Some c
            ∧ now_lookup env - timestamp c < CACHE_DURATION.

(** A fetch that fails: [fetch] rejects, or the response is not [ok]. *)
Inductive fetch_failure : Reply → Prop :=
| network_error (e : Js.Thrown) : fetch_failure (Rejected e)
| http_error (res_status : Z) (body : Payload) :
    Js.ok res_status = false → fetch_failure (Replied res_status body).

(** A toy codec for examples: the text ["snapshot@1000"] is the empty
    snapshot taken at instant 1000 and every other text is rejected. *)
Definition toy_parse (s : string) : option CachedData :=
  if String.eqb s "snapshot@1000" then Some {| cached_issues := []; timestamp := 1000 |}
  else None.

#[local] Instance toy_json : Json :=
  {| JSON_parse := toy_parse; JSON_stringify := λ _, "snapshot@1000";
     JSON_parse_empty := eq_refl |}.

(** A card that shows one issue, with a snapshot stored for project ABC. *)
Definition stored_state : State :=
  {| issues := [issue_of "OLD-1" None None]; loading := false; lastUpdated := Some 500;
     localStorage := {[ "jira-issues-ABC" := "snapshot@1000" ]} |}.

Definition env_at (now : Z) (r : Reply) : Env :=
  {| now_lookup := now; now_fetched := now + 500; reply := r; refusal := None |}.

(** The same surroundings with a store that refuses every write. *)
Definition env_full (now : Z) (r : Reply) : Env :=
  {| now_lookup := now; now_fetched := now + 500; reply := r;
     refusal := Some (Js.ErrorObj "QuotaExceededError") |}.

End Card.

(** ** The proxy route *)

Module Proxy.

(** A JSON value. *)
#[warnings="-register-all"]
Inductive json : Type :=
| JNull
| JBool (b : bool)
| JNum (n : Z)
| JStr (s : string)
| JArr (items : list json)
| JObj (members : list (string * json)).

(** [config.getString(key)]: the value, or the error it throws. *)
Definition Config : Type := string → Js.Thrown + string.

(** The characters [encodeURIComponent] leaves as they are. *)
Definition unreserved (c : ascii) : bool :=
  let n := N_of_ascii c in
  (65 <=? n)%N && (n <=? 90)%N || (97 <=? n)%N && (n <=? 122)%N
  || (48 <=? n)%N && (n <=? 57)%N
  || existsb (Ascii.eqb c) (list_ascii_of_string "-_.!~*'()").

Definition hex_digit (n : N) : ascii :=
  if (n <? 10)%N then ascii_of_N (48 + n) else ascii_of_N (55 + n).

Definition encode_byte (c : ascii) : string :=
  if unreserved c then String c EmptyString
  else
    let n := N_of_ascii c in
    String "%" (String (hex_digit (n / 16)) (String (hex_digit (n mod 16)) EmptyString)).

(** [encodeURIComponent(s)], on the bytes of [s]. *)
Fixpoint encodeURIComponent (s : string) : string :=
  match s with
  | EmptyString => EmptyString
  | String c s' => encode_byte c +:+ encodeURIComponent s'
  end.

(** The request given to [fetch]. *)
Record Request : Type := { url : string; headers : list (string * string) }.

(** What the upstream gives: [fetch] rejects, or it resolves to a response
    with its status, what [response.text()] gives and what
    [response.json()] gives. *)
Inductive Upstream : Type :=
| Unreachable (e : Js.Thrown)
| Responded (status : Z) (text : Js.Thrown + string) (parsed : Js.Thrown + json).

(** What the route sends back. *)
Record Reply : Type := { code : Z; payload : json }.

Definition maxResults : Z := 1000.

Definition jqlQuery (projectKey : string) : string :=
  "project=" +:+ projectKey +:+ " AND status NOT IN (Closed, Resolved, Done)".

Definition search_url (jiraUrl projectKey : string) : string :=
  jiraUrl +:+ "/rest/api/2/search?jql=" +:+ encodeURIComponent (jqlQuery projectKey)
  +:+ "&maxResults=" +:+ pretty maxResults.

Definition search_request (jiraUrl jiraToken projectKey : string) : Request :=
  {| url := search_url jiraUrl projectKey;
     headers := [("Authorization", "Bearer " +:+ jiraToken); ("Accept", "application/json")] |}.

(** The [catch] block. *)
Definition internal_error (e : Js.Thrown) : Reply :=
  {| code := 500;
     payload := JObj [("error", JStr "Internal server error");
                      ("message", JStr (Js.message_or "Unknown error" e))] |}.

(** The reply for an upstream response that is not [ok]. *)
Definition upstream_error (status : Z) (errorText : string) : Reply :=
  {| code := status;
     payload := JObj [("error", JStr ("Jira API error: " +:+ pretty status));
                      ("details", JStr errorText)] |}.

(** Reading [data.issues] for the log line throws when [data] is [null]. *)
Definition read_issues (data : json) : Js.Thrown + unit :=
  match data with
  | JNull => inl (Js.ErrorObj "Cannot read properties of null (reading 'issues')")
  | _ => inr ()
  end.

(** The part of the handler after [fetch] has resolved. *)
Definition relay (up : Upstream) : Js.Thrown + Reply :=
  match up with
  | Unreachable e => inl e
  | Responded status text parsed =>
      if negb (Js.ok status) then
        match text with
        | inl e => inl e
        | inr errorText => inr (upstream_error status errorText)
        end
      else
        match parsed with
        | inl e => inl e
        | inr data =>
            match read_issues data with
            | inl e => inl e
            | inr _ => inr {| code := 200; payload := data |}
            end
        end
  end.

(** [router.get('/issues/:projectKey', ...)]: the reply, and the requests
    sent upstream. *)
Definition issues_route (config : Config) (projectKey : string) (up : Upstream)
    : Reply * list Request :=
  match config "integrations.jira.apiToken" with
  | inl e => (internal_error e, [])
  | inr jiraToken =>
      match config "integrations.jira.baseUrl" with
      | inl e => (internal_error e, [])
      | inr jiraUrl =>
          let request := search_request jiraUrl jiraToken projectKey in
          match relay up with
          | inl e => (internal_error e, [request])
          | inr r => (r, [request])
          end
      end
  end.

(** [router.get('/test', ...)] *)
Definition test_route : Reply :=
  {| code := 200; payload := JObj [("message", JStr "Jira backend is working!")] |}.

(** Undoing [encodeURIComponent]: every [%XY] becomes the byte with the
    hexadecimal numeral [XY]; [None] when a [%] is not followed by two
    hexadecimal digits. *)
Definition hex_value (c : ascii) : option N :=
  let n := N_of_ascii c in
  if (48 <=? n)%N && (n <=? 57)%N then Some (n - 48)%N
  else if (65 <=? n)%N && (n <=? 70)%N then Some (n - 55)%N
  else if (97 <=? n)%N && (n <=? 102)%N then Some (n - 87)%N
  else None.

Fixpoint percent_decode (s : string) : option string :=
  match s with
  | EmptyString => Some EmptyString
  | String c s' =>
      if Ascii.eqb c "%" then
        match s' with
        | String h (String l s'') =>
            match hex_value h, hex_value l, percent_decode s'' with
            | Some a, Some b, Some r => Some (String (ascii_of_N (16 * a + b)) r)
            | _, _, _ => None
            end
        | _ => None
        end
      else String c <$> percent_decode s'
  end.

(** A character that may stand in the value of a query parameter: it is
    unreserved or it starts an escape. *)
Definition query_safe (c : ascii) : bool := unreserved c || Ascii.eqb c "%".

(** A configuration for examples, with both values of the integration. *)
Definition sample_config : Config :=
  λ k, if String.eqb k "integrations.jira.apiToken" then inr "s3cret"
       else if String.eqb k "integrations.jira.baseUrl" then inr "https://jira.example.com"
       else inl (Js.ErrorObj "Missing required config value").

End Proxy.

(** ** Row highlight by issue type *)

Module RowStyle.

(** The style object of a row: [{}] or [{ backgroundColor: ... }]. *)
Record CSSProperties : Type := { backgroundColor : option string }.

Definition no_style : CSSProperties := {| backgroundColor := None |}.

Definition background (c : string) : CSSProperties := {| backgroundColor := Some c |}.

Definition getIssueTypeRowStyle (issueType : string) (isDarkMode : bool) : CSSProperties :=
  let typeLower := Js.toLowerCase issueType in
  if isDarkMode then
    if Js.includes typeLower "bug" then background "rgba(244, 67, 54, 0.15)"
    else if Js.includes typeLower "epic" then background "rgba(33, 150, 243, 0.15)"
    else if Js.includes typeLower "story" then background "rgba(76, 175, 80, 0.15)"
    else if Js.includes typeLower "spike" then background "rgba(255, 152, 0, 0.15)"
    else if Js.includes typeLower "task" then background "rgba(156, 39, 176, 0.15)"
    else if Js.includes typeLower "improvement" || Js.includes typeLower "enhancement"
    then background "rgba(0, 150, 136, 0.15)"
    else no_style
  else
    if Js.includes typeLower "bug" then background "#ffebee"
    else if Js.includes typeLower "epic" then background "#e1f5fe"
    else if Js.includes typeLower "story" then background "#e8f5e9"
    else if Js.includes typeLower "spike" then background "#fff3e0"
    else if Js.includes typeLower "task" then background "#f3e5f5"
    else if Js.includes typeLower "improvement" || Js.includes typeLower "enhancement"
    then background "#e0f2f1"
    else no_style.

(** The [rowStyle] option of the table:
    [rowData.fields?.issuetype?.name ? getIssueTypeRowStyle(...) : {}]. *)
Definition rowStyle (isDarkMode : bool) (rowData : Card.JiraIssue) : CSSProperties :=
  match Card.issuetype_name rowData with
  | Some n => if Js.truthy n then getIssueTypeRowStyle n isDarkMode else no_style
  | None => no_style
  end.

(** The kinds of issue the two palettes know, in the order of the tests,
    with the words that announce each. *)
Inductive Kind : Type := Bug | Epic | Story | Spike | Task | Improvement.

Definition kinds : list Kind := [Bug; Epic; Story; Spike; Task; Improvement].

Definition words (k : Kind) : list string :=
  match k with
  | Bug => ["bug"]
  | Epic => ["epic"]
  | Story => ["story"]
  | Spike => ["spike"]
  | Task => ["task"]
  | Improvement => ["improvement"; "enhancement"]
  end.

Definition announces (issueType : string) (k : Kind) : bool :=
  existsb (Js.includes (Js.toLowerCase issueType)) (words k).

(** The first kind that the type name announces. *)
Definition classify (issueType : string) : option Kind :=
  List.find (announces issueType) kinds.

Definition tint (isDarkMode : bool) (k : Kind) : string :=
  if isDarkMode then
    match k with
    | Bug => "rgba(244, 67, 54, 0.15)"
    | Epic => "rgba(33, 150, 243, 0.15)"
    | Story => "rgba(76, 175, 80, 0.15)"
    | Spike => "rgba(255, 152, 0, 0.15)"
    | Task => "rgba(156, 39, 176, 0.15)"
    | Improvement => "rgba(0, 150, 136, 0.15)"
    end
  else
    match k with
    | Bug => "#ffebee"
    | Epic => "#e1f5fe"
    | Story => "#e8f5e9"
    | Spike => "#fff3e0"
    | Task => "#f3e5f5"
    | Improvement => "#e0f2f1"
    end.

#[global] Instance Kind_eq_dec : EqDecision Kind.
Proof. solve_decision. Defined.

End RowStyle.

(** ** What the card shows *)

Module View.

Import Card.

(** [handleClearFilters] *)
Definition handleClearFilters : FilterSelection :=
  {| selectedType := ""; selectedAssignee := ""; selectedStatus := "";
     selectedPriority := "" |}.

(** [selectedType || selectedAssignee || selectedStatus || selectedPriority]
    in a boolean position. *)
Definition hasActiveFilters (sel : FilterSelection) : bool :=
  Js.truthy (selectedType sel) || Js.truthy (selectedAssignee sel)
  || Js.truthy (selectedStatus sel) || Js.truthy (selectedPriority sel).

(** The title of the table. *)
Definition title (issues : list JiraIssue) (sel : FilterSelection) : string :=
  "Jira Issues (" +:+ pretty (Z.of_nat (length (filteredIssues issues sel)))
  +:+ (if hasActiveFilters sel then " of " +:+ pretty (Z.of_nat (length issues)) else "")
  +:+ ")".

(** The three things the component can return. *)
Inductive Rendered : Type := Nothing | ProgressBar | IssueTable.

Definition render (projectKey : option string) (st : State) : Rendered :=
  if negb (present projectKey) then Nothing
  else if loading st && bool_decide (length (issues st) = 0%nat) then ProgressBar
  else IssueTable.

(** The cell of the assignee column:
    [row.fields.assignee?.displayName || 'Unassigned']. *)
Definition assignee_cell (row : JiraIssue) : string :=
  match assignee_displayName row with
  | Some n => if Js.truthy n then n else "Unassigned"
  | None => "Unassigned"
  end.

(** The cell of the status column: nothing without a status, else a chip
    with the name and its colour. *)
Definition status_cell (row : JiraIssue) : option (string * StatusColor.ColorConfig) :=
  match status (fields row) with
  | None => None
  | Some s => Some (name s, StatusColor.getStatusColor (name s))
  end.

(** The state of a component that has just been mounted. *)
Definition mounted (storage : gmap string string) : State :=
  {| issues := []; loading := true; lastUpdated := None; localStorage := storage |}.

(** The initial fetch: the effect calls [fetchIssues()]. *)
Definition initial_fetch `{Json} (projectKey : option string) (env : Env)
    (storage : gmap string string) : State * list Event :=
  fetchIssues projectKey false env (mounted storage).

(** The data a run leaves on display and in store. *)
Definition data (st : State) : list JiraIssue * option Z * gmap string string :=
  (issues st, lastUpdated st, localStorage st).

(** The card and the store agree: the text stored for the project parses
    to the issues on display and to the instant of the last update. *)
Definition coherent `{Json} (projectKey : option string) (st : State) : Prop :=
  ∃ cached c, localStorage st !! cacheKey projectKey = Some cached
              ∧ JSON_parse cached = Some c
              ∧ issues st = cached_issues c
              ∧ lastUpdated st = Some (timestamp c).

(** The run threw: the console got an error. *)
Definition threw (log : list Event) : bool :=
  existsb (λ e, match e with ConsoleError _ _ => true | _ => false end) log.

(** A selection with one filter set. *)
Definition only_type (s : string) : FilterSelection :=
  {| selectedType := s; selectedAssignee := ""; selectedStatus := ""; selectedPriority := "" |}.

Definition only_assignee (s : string) : FilterSelection :=
  {| selectedType := ""; selectedAssignee := s; selectedStatus := ""; selectedPriority := "" |}.

Definition only_priority (s : string) : FilterSelection :=
  {| selectedType := ""; selectedAssignee := ""; selectedStatus := ""; selectedPriority := s |}.

(** The answers that make the [try] of [fetchIssues] throw: a rejected
    call, a response that is not [ok], a body that is not JSON or that is
    [null]. *)
Definition bad_reply (r : Reply) : bool :=
  match r with
  | Rejected _ => true
  | Replied res_status body =>
      negb (Js.ok res_status)
      || match body with
         | NotJson _ | JsonNull => true
         | JsonData _ => false
         end
  end.

(** The snapshot a successful answer makes the card write. *)
Definition snapshot_of (env : Env) : CachedData :=
  match reply env with
  | Replied _ (JsonData data_issues) =>
      {| cached_issues := default [] data_issues; timestamp := now_fetched env |}
  | _ => {| cached_issues := []; timestamp := now_fetched env |}
  end.

(** [sel'] keeps every filter that [sel] sets. *)
Definition narrows (sel' sel : FilterSelection) : Prop :=
  (selectedType sel = "" ∨ selectedType sel' = selectedType sel)
  ∧ (selectedAssignee sel = "" ∨ selectedAssignee sel' = selectedAssignee sel)
  ∧ (selectedStatus sel = "" ∨ selectedStatus sel' = selectedStatus sel)
  ∧ (selectedPriority sel = "" ∨ selectedPriority sel' = selectedPriority sel).

End View.

(** * Properties *)

(** ** Relative time label *)

Section TimeAgoFacts.

Import TimeAgo.

Lemma seconds_lt (e : Z) : e / 1000 < 60 ↔ e < 60 * 1000.
Proof. split; intros; Z.div_mod_to_equations; lia. Qed.

Lemma minutes_of (e : Z) : e / 1000 / 60 = e / (60 * 1000).
Proof. rewrite Z.div_div by lia. reflexivity. Qed.

Lemma hours_of (e : Z) : e / 1000 / 60 / 60 = e / (60 * 60 * 1000).
Proof. rewrite !Z.div_div by lia. reflexivity. Qed.

Lemma days_of (e : Z) : e / 1000 / 60 / 60 / 24 = e / (24 * 60 * 60 * 1000).
Proof. rewrite !Z.div_div by lia. reflexivity. Qed.

Lemma label_unfold (n : Z) (unit : string) :
  label n unit = pretty n +:+ " " +:+ unit +:+ (if bool_decide (n > 1) then "s" else "") +:+ " ago".
Proof. reflexivity. Qed.

(** The four cases of [formatTimeAgo] in terms of the elapsed
    milliseconds. *)
Lemma formatTimeAgo_cases (now timestamp : Z) :
  let e := now - timestamp in
  formatTimeAgo now timestamp =
    if bool_decide (e < 60 * 1000) then "just now"
    else if bool_decide (e < 60 * 60 * 1000) then label (e / (60 * 1000)) "minute"
    else if bool_decide (e < 24 * 60 * 60 * 1000) then label (e / (60 * 60 * 1000)) "hour"
    else label (e / (24 * 60 * 60 * 1000)) "day".
Proof.
  intros e. unfold formatTimeAgo. cbv zeta. fold e.
  rewrite days_of, hours_of, minutes_of.
  repeat case_bool_decide; try reflexivity; exfalso;
    Z.div_mod_to_equations; lia.
Qed.

(** C8: for a timestamp in the past, the label is "just now" under 60
    seconds of elapsed time, "N minute(s) ago" with N the whole minutes
    elapsed under 60 minutes, "N hour(s) ago" with N the whole hours
    elapsed under 24 hours, and "N day(s) ago" with N the whole days
    elapsed otherwise, the unit taking its "s" when N is more than 1; 90
    seconds give "1 minute ago" and 3600 seconds give "1 hour ago". *)
Theorem formatTimeAgo_ranges (now timestamp : Z) :
  0 ≤ now - timestamp →
  let e := now - timestamp in
  let plural (n : Z) := if bool_decide (n > 1) then "s" else "" in
  (e < 60 * 1000 → formatTimeAgo now timestamp = "just now")
  ∧ (60 * 1000 ≤ e < 60 * 60 * 1000 →
     let n := e / (60 * 1000) in
     1 ≤ n < 60
     ∧ formatTimeAgo now timestamp = pretty n +:+ " minute" +:+ plural n +:+ " ago")
  ∧ (60 * 60 * 1000 ≤ e < 24 * 60 * 60 * 1000 →
     let n := e / (60 * 60 * 1000) in
     1 ≤ n < 24
     ∧ formatTimeAgo now timestamp = pretty n +:+ " hour" +:+ plural n +:+ " ago")
  ∧ (24 * 60 * 60 * 1000 ≤ e →
     let n := e / (24 * 60 * 60 * 1000) in
     1 ≤ n
     ∧ formatTimeAgo now timestamp = pretty n +:+ " day" +:+ plural n +:+ " ago")
  ∧ (e = 90 * 1000 → formatTimeAgo now timestamp = "1 minute ago")
  ∧ (e = 3600 * 1000 → formatTimeAgo now timestamp = "1 hour ago").
Proof.
  intros _ e plural. rewrite formatTimeAgo_cases. fold e.
  repeat split; intros; try (Z.div_mod_to_equations; lia);
    repeat case_bool_decide; try lia; try reflexivity.
  - replace e with (90 * 1000) by lia. reflexivity.
  - replace e with (3600 * 1000) by lia. reflexivity.
Qed.

Lemma formatTimeAgo_ranges_witness : formatTimeAgo 200000 0 = "3 minutes ago".
Proof.
  destruct (formatTimeAgo_ranges 200000 0 ltac:(lia)) as (_ & H & _).
  destruct H as [_ H]; [lia|]. rewrite H. reflexivity.
Defined.

(** C10: [formatTimeAgo] gives a label for every pair of integers, and
    that label is "just now" whenever the timestamp is not at least 60
    seconds before the clock, which includes a timestamp equal to the
    clock or after it; whatever the timestamp, the label is "just now" or
    carries a count that is at least 1. *)
Theorem formatTimeAgo_just_now (now timestamp : Z) :
  (now - timestamp < 60 * 1000 → formatTimeAgo now timestamp = "just now")
  ∧ (now ≤ timestamp → formatTimeAgo now timestamp = "just now")
  ∧ (formatTimeAgo now timestamp = "just now"
     ∨ ∃ n unit, 1 ≤ n ∧ formatTimeAgo now timestamp = label n unit).
Proof.
  rewrite formatTimeAgo_cases. cbv zeta.
  repeat split; intros; repeat case_bool_decide; try lia; try reflexivity;
    try (left; reflexivity); right; eexists _, _; (split; [|reflexivity]);
    Z.div_mod_to_equations; lia.
Qed.

Lemma formatTimeAgo_just_now_witness :
  formatTimeAgo 1000 59999 = "just now" ∧ formatTimeAgo 0 0 = "just now".
Proof.
  destruct (formatTimeAgo_just_now 1000 59999) as (H & _ & _).
  destruct (formatTimeAgo_just_now 0 0) as (_ & H0 & _).
  split; [apply H; lia | apply H0; lia].
Defined.

End TimeAgoFacts.

(** ** Strings *)

Section StringFacts.

Lemma append_String (c : ascii) (k b : string) : String c k +:+ b = String c (k +:+ b).
Proof. reflexivity. Qed.

Lemma append_empty (b : string) : "" +:+ b = b.
Proof. reflexivity. Qed.

Lemma prefix_app (k s : string) : String.prefix k s = true ↔ ∃ b, s = k +:+ b.
Proof.
  revert s. induction k as [|c k IH]; intros s.
  - split; [intros _; exists s; reflexivity | intros _; destruct s; reflexivity].
  - destruct s as [|d s]; simpl.
    + split; [discriminate | intros [b Hb]; discriminate].
    + destruct (ascii_dec c d) as [->|Hne].
      * rewrite IH. split; intros [b Hb]; exists b;
          [rewrite Hb; reflexivity | rewrite append_String in Hb; congruence].
      * split; [discriminate | intros [b Hb]; rewrite append_String in Hb; congruence].
Qed.

Lemma includes_empty (k : string) : Js.includes "" k = String.prefix k "" || false.
Proof. reflexivity. Qed.

Lemma includes_String (c : ascii) (s k : string) :
  Js.includes (String c s) k = String.prefix k (String c s) || Js.includes s k.
Proof. reflexivity. Qed.

(** [includes] is substring membership. *)
Lemma includes_app (s k : string) :
  Js.includes s k = true ↔ ∃ a b, s = a +:+ k +:+ b.
Proof.
  split.
  - induction s as [|c s IH]; [rewrite includes_empty | rewrite includes_String];
      rewrite orb_true_iff.
    + intros [H|H]; [|discriminate]. apply prefix_app in H as [b Hb]. exists "", b. exact Hb.
    + intros [H|H].
      * apply prefix_app in H as [b Hb]. exists "", b. exact Hb.
      * destruct (IH H) as (a & b & ->). exists (String c a), b. reflexivity.
  - intros (a & b & ->). induction a as [|c a IH].
    + assert (Hp : String.prefix k (k +:+ b) = true) by (apply prefix_app; eauto).
      rewrite append_empty. destruct (k +:+ b);
        [rewrite includes_empty | rewrite includes_String]; rewrite Hp; reflexivity.
    + rewrite append_String, includes_String, IH. apply orb_true_r.
Qed.

Lemma lower_char_idem (c : ascii) : Js.lower_char (Js.lower_char c) = Js.lower_char c.
Proof. destruct c as [[] [] [] [] [] [] [] []]; reflexivity. Qed.

Lemma toLowerCase_idem (s : string) : Js.toLowerCase (Js.toLowerCase s) = Js.toLowerCase s.
Proof. induction s as [|c s IH]; simpl; [|rewrite lower_char_idem, IH]; reflexivity. Qed.

Lemma truthy_true (s : string) : Js.truthy s = true ↔ s ≠ "".
Proof.
  unfold Js.truthy. destruct (String.eqb_spec s ""); simpl; split; congruence.
Qed.

Lemma truthy_false (s : string) : Js.truthy s = false ↔ s = "".
Proof.
  unfold Js.truthy. destruct (String.eqb_spec s ""); simpl; split; congruence.
Qed.

Lemma strict_ne_false (a : option string) (b : string) :
  Js.strict_ne a b = false ↔ a = Some b.
Proof.
  destruct a as [s|]; simpl; [|split; discriminate].
  destruct (String.eqb_spec s b); simpl; split; congruence.
Qed.

End StringFacts.

(** ** Status chip colour *)

Section StatusColorFacts.

Import StatusColor.

(** [find] returns the first element that passes the test. *)
Lemma find_first {A} (f : A → bool) (pre post : list A) (x : A) :
  Forall (λ y, f y = false) pre → f x = true → List.find f (pre ++ x :: post) = Some x.
Proof.
  induction 1 as [|y pre Hy _ IH]; intros Hx; simpl.
  - rewrite Hx. reflexivity.
  - rewrite Hy. auto.
Qed.

Lemma find_nothing {A} (f : A → bool) (l : list A) :
  Forall (λ y, f y = false) l → List.find f l = None.
Proof. induction 1 as [|y l Hy _ IH]; simpl; [|rewrite Hy]; auto. Qed.

(** The if-chain is the table read from the top. *)
Lemma getStatusColor_table (status : string) : getStatusColor status = first_match status.
Proof.
  unfold getStatusColor, first_match, groups, group_matches, mentions. cbv zeta.
  generalize (Js.toLowerCase status). intros l. cbn.
  repeat match goal with
         | |- context [Js.includes l ?k] => destruct (Js.includes l k); cbn
         end; reflexivity.
Qed.

(** C9, as amended: the colour of a status is found by testing, on the
    status put in lower case, whether keywords occur in it, group after
    group in the fixed order (done/closed/resolved; progress; review;
    to do/new/open; block/hold/wait; test/qa; release and pending
    together); the first group that matches gives the colour, no two
    groups give the same colour, and a status that matches no group gets
    the neutral default, which is the colour of no group. *)
Theorem getStatusColor_first_group (status : string) :
  (∀ k, mentions status k = true ↔ ∃ a b, Js.toLowerCase status = a +:+ k +:+ b)
  ∧ (∀ other, Js.toLowerCase other = Js.toLowerCase status →
       getStatusColor other = getStatusColor status)
  ∧ (∀ pre g post, groups = pre ++ g :: post →
       Forall (λ h, group_matches status h = false) pre →
       group_matches status g = true →
       getStatusColor status = paint g)
  ∧ (Forall (λ h, group_matches status h = false) groups →
       getStatusColor status = neutral)
  ∧ NoDup (neutral :: map paint groups)
  ∧ map (λ g, (combine g, keywords g)) groups =
      [ (AnyOf, ["done"; "closed"; "resolved"]); (AnyOf, ["progress"]);
        (AnyOf, ["review"]); (AnyOf, ["to do"; "new"; "open"]);
        (AnyOf, ["block"; "hold"; "wait"]); (AnyOf, ["test"; "qa"]);
        (AllOf, ["release"; "pending"]) ].
Proof.
  split; [|split; [|split; [|split; [|split]]]].
  - intros k. apply includes_app.
  - intros other Heq. unfold getStatusColor. rewrite Heq. reflexivity.
  - intros pre g post Hg Hpre Hm. rewrite getStatusColor_table. unfold first_match.
    rewrite Hg, (find_first _ pre post g Hpre Hm). reflexivity.
  - intros Hnone. rewrite getStatusColor_table. unfold first_match.
    rewrite (find_nothing _ _ Hnone). reflexivity.
  - apply (bool_decide_unpack _). vm_compute. exact I.
  - reflexivity.
Qed.

Lemma getStatusColor_first_group_witness :
  getStatusColor "In Progress" = {| chip := primary; style := filled "#1976d2" |}
  ∧ getStatusColor "IN PROGRESS" = getStatusColor "in progress"
  ∧ getStatusColor "Backlog" = neutral.
Proof.
  destruct (getStatusColor_first_group "In Progress") as (_ & _ & Hfirst & _).
  destruct (getStatusColor_first_group "in progress") as (_ & Hcase & _).
  destruct (getStatusColor_first_group "Backlog") as (_ & _ & _ & Hnone & _).
  split; [|split].
  - apply (Hfirst [ {| combine := AnyOf; keywords := ["done"; "closed"; "resolved"];
                       paint := {| chip := primary; style := None |} |} ]
                  {| combine := AnyOf; keywords := ["progress"];
                     paint := {| chip := primary; style := filled "#1976d2" |} |}
                  (tail (tail groups))).
    + reflexivity.
    + repeat constructor.
    + reflexivity.
  - apply Hcase. reflexivity.
  - apply Hnone. repeat constructor.
Defined.

(** C9, as worded, fails: with the keywords "in-progress", "to-do" and
    "blocked" the status "To-Do" belongs to the to-do group and
    "Blocking" to none, while the code gives "To-Do" the neutral default
    and "Blocking" the colour of the blocked group; "In Progress" gets
    the colour of its group from the code and none from the wording. *)
Lemma getStatusColor_not_as_worded :
  (worded_match "To-Do" = {| chip := default; style := filled "#ff9800" |}
   ∧ getStatusColor "To-Do" = neutral)
  ∧ (worded_match "Blocking" = neutral
     ∧ getStatusColor "Blocking" = {| chip := default; style := filled "#f44336" |})
  ∧ (worded_match "In Progress" = neutral
     ∧ getStatusColor "In Progress" = {| chip := primary; style := filled "#1976d2" |})
  ∧ getStatusColor "To-Do" ≠ worded_match "To-Do".
Proof. repeat split; try reflexivity. discriminate. Qed.

End StatusColorFacts.

(** ** Filtering *)

Section FilterFacts.

Import Card.

(** One guard of the callback lets the issue through exactly when the
    issue matches on that dimension. *)
Lemma guard_matches (selected : string) (field : option string) :
  Js.truthy selected && Js.strict_ne field selected = false ↔ matches_field selected field.
Proof.
  unfold matches_field. rewrite andb_false_iff, truthy_false, strict_ne_false. reflexivity.
Qed.

Lemma keep_matches (sel : FilterSelection) (issue : JiraIssue) :
  keep sel issue = true ↔ matches sel issue.
Proof.
  unfold keep, matches. rewrite <- !guard_matches.
  destruct (Js.truthy (selectedType sel) && _); [intuition discriminate|].
  destruct (Js.truthy (selectedAssignee sel) && _); [intuition discriminate|].
  destruct (Js.truthy (selectedStatus sel) && _); [intuition discriminate|].
  destruct (Js.truthy (selectedPriority sel) && _); intuition discriminate.
Qed.

(** C1: the displayed list is the loaded list restricted, in its order,
    to the issues that match every non-empty filter by equality of
    strings on the field of the issue; an issue without the field passes
    no non-empty filter on it, and an empty filter restricts nothing. *)
Theorem filteredIssues_exact (issues : list JiraIssue) (sel : FilterSelection) :
  filteredIssues issues sel = filter (matches sel) issues
  ∧ (∀ i, i ∈ filteredIssues issues sel ↔ i ∈ issues ∧ matches sel i)
  ∧ (∀ selected, selected ≠ "" → ¬ matches_field selected None)
  ∧ (∀ selected field, selected ≠ "" → (matches_field selected field ↔ field = Some selected))
  ∧ (∀ field, matches_field "" field).
Proof.
  assert (Heq : filteredIssues issues sel = filter (matches sel) issues).
  { unfold filteredIssues. induction issues as [|i issues IH]; [reflexivity|].
    simpl. rewrite filter_cons, IH.
    destruct (decide (matches sel i)) as [Hm|Hm].
    - apply keep_matches in Hm. rewrite Hm. reflexivity.
    - destruct (keep sel i) eqn:Hk; [|reflexivity].
      apply keep_matches in Hk. contradiction. }
  split; [exact Heq|]. split; [|split; [|split]].
  - intros i. rewrite Heq, list_elem_of_filter. tauto.
  - intros selected Hne [H|H]; congruence.
  - intros selected field Hne. unfold matches_field. tauto.
  - intros field. left. reflexivity.
Qed.

Example filteredIssues_in_progress :
  filteredIssues
    [issue_of "A-1" None (Some "In Progress"); issue_of "A-2" None (Some "Done");
     issue_of "A-3" None (Some "In Progress"); issue_of "A-4" None None]
    (only_status "In Progress")
  = [issue_of "A-1" None (Some "In Progress"); issue_of "A-3" None (Some "In Progress")].
Proof. reflexivity. Qed.

Lemma filteredIssues_exact_witness :
  ¬ matches_field "Bug" None
  ∧ (matches_field "Bug" (Some "Bug") ↔ Some "Bug" = Some "Bug").
Proof.
  destruct (filteredIssues_exact [] (only_status "")) as (_ & _ & Hnone & Hsome & _).
  split; [apply Hnone; discriminate | apply Hsome; discriminate].
Defined.

End FilterFacts.

(** ** Filter vocabularies *)

Section VocabularyFacts.

Import Card.

Lemma lt_not_before (a b : string) : String_as_OT.lt a b → ¬ Js.before b a.
Proof. unfold Js.before, String_as_OT.lt. congruence. Qed.

Lemma not_before_lt (a b : string) : ¬ Js.before b a → String_as_OT.lt a b.
Proof.
  unfold Js.before, String_as_OT.lt. intros H.
  destruct (String_as_OT.compare a b); try reflexivity;
    exfalso; apply H; discriminate.
Qed.

#[local] Instance before_total : Total Js.before.
Proof.
  intros a b. destruct (decide (Js.before a b)) as [|Hn]; [left; assumption|].
  right. apply not_before_lt in Hn. intros Hba.
  exact (StrictOrder_Irreflexive b (StrictOrder_Transitive _ _ _ Hn Hba)).
Qed.

#[local] Instance before_trans : Transitive Js.before.
Proof.
  intros a b c Hab Hbc Hca. change (String_as_OT.lt c a) in Hca.
  destruct (String_as_OT.compare_spec a b) as [->|Hlt|Hgt].
  - exact (lt_not_before _ _ Hca Hbc).
  - exact (lt_not_before _ _ (StrictOrder_Transitive _ _ _ Hca Hlt) Hbc).
  - exact (lt_not_before _ _ Hgt Hab).
Qed.

Lemma before_ne_lt (a b : string) : Js.before a b → a ≠ b → String_as_OT.lt a b.
Proof.
  intros Hab Hne. destruct (String_as_OT.compare_spec a b) as [->|Hlt|Hgt].
  - contradiction.
  - assumption.
  - destruct (lt_not_before _ _ Hgt Hab).
Qed.

Lemma Set_add_all_elem (seen l : list string) (x : string) :
  x ∈ Js.Set_add_all seen l ↔ x ∈ seen ∨ x ∈ l.
Proof.
  revert seen. induction l as [|y l IH]; intros seen; simpl.
  - rewrite elem_of_nil. tauto.
  - case_bool_decide; rewrite IH, ?elem_of_app, !elem_of_cons, ?elem_of_nil; [|tauto].
    split; [tauto|]. intros [?|[->|?]]; tauto.
Qed.

Lemma Set_add_all_NoDup (seen l : list string) :
  NoDup seen → NoDup (Js.Set_add_all seen l).
Proof.
  revert seen. induction l as [|y l IH]; intros seen Hseen; simpl; [assumption|].
  case_bool_decide; apply IH; [assumption|].
  apply NoDup_app. repeat split; [assumption | | apply NoDup_singleton].
  intros z Hz Hz'. apply list_elem_of_singleton in Hz'. congruence.
Qed.

Lemma sort_elem (l : list string) (x : string) : x ∈ Js.sort l ↔ x ∈ l.
Proof. unfold Js.sort. rewrite merge_sort_Permutation. reflexivity. Qed.

Lemma sort_NoDup (l : list string) : NoDup l → NoDup (Js.sort l).
Proof. unfold Js.sort. rewrite merge_sort_Permutation. auto. Qed.

(** A list without repetition that is sorted for [before] is strictly
    increasing. *)
Lemma sorted_strict (l : list string) :
  StronglySorted Js.before l → NoDup l → StronglySorted String_as_OT.lt l.
Proof.
  induction 1 as [|x l Hl IH Hx]; intros Hnd; constructor.
  - apply IH. apply NoDup_cons in Hnd. tauto.
  - apply NoDup_cons in Hnd as [Hnotin _].
    rewrite Forall_forall in Hx |- *. intros y Hy.
    apply before_ne_lt; [auto|]. intros ->. contradiction.
Qed.

Lemma vocabulary_spec (field : JiraIssue → option string) (issues : list JiraIssue) :
  vocabulary_of field issues (vocabulary field issues).
Proof.
  unfold vocabulary_of, vocabulary.
  assert (Hnd : NoDup (Js.sort (Js.Set_from
                 (omap id (List.filter Boolean (map field issues)))))).
  { apply sort_NoDup, Set_add_all_NoDup, NoDup_nil_2. }
  split; [|split; [exact Hnd|]].
  - apply sorted_strict; [|exact Hnd]. apply StronglySorted_merge_sort; apply _.
  - intros x. rewrite sort_elem. unfold Js.Set_from. rewrite Set_add_all_elem, elem_of_nil.
    rewrite list_elem_of_omap. split.
    + intros [[]|(o & Ho & Hid)]. simpl in Hid. subst o.
      apply list_elem_of_In, filter_In in Ho as [Hin Hb].
      apply in_map_iff in Hin as (i & Hi & Hin). simpl in Hb. apply truthy_true in Hb.
      split; [assumption|]. exists i. split; [apply list_elem_of_In|]; assumption.
    + intros (Hne & i & Hi & Hf). right. exists (Some x). split; [|reflexivity].
      apply list_elem_of_In, filter_In. split.
      * apply in_map_iff. exists i. split; [assumption | apply list_elem_of_In; assumption].
      * simpl. apply truthy_true. assumption.
Qed.

#[local] Instance lt_antisym : AntiSymm (=) String_as_OT.lt.
Proof.
  intros a b Hab Hba.
  destruct (StrictOrder_Irreflexive a (StrictOrder_Transitive _ _ _ Hab Hba)).
Qed.

(** The specification leaves no choice: only one list is a vocabulary. *)
Lemma vocabulary_of_unique (field : JiraIssue → option string) (issues : list JiraIssue)
    (v w : list string) :
  vocabulary_of field issues v → vocabulary_of field issues w → v = w.
Proof.
  intros (Hsv & Hnv & Hv) (Hsw & Hnw & Hw).
  apply (StronglySorted_unique String_as_OT.lt); [assumption..|].
  apply NoDup_Permutation; [assumption..|].
  intros x. rewrite Hv, Hw. reflexivity.
Qed.

(** C7: each of the four vocabularies (type, assignee, status, priority)
    is the list, in increasing lexicographic order and without
    repetition, of the non-empty values of that field over the loaded
    issues; an issue without the field adds nothing; for issues of types
    Bug, Story, Bug the type vocabulary is Bug, Story. *)
Theorem vocabularies_sorted_distinct (issues : list JiraIssue) :
  vocabulary_of issuetype_name issues (types issues)
  ∧ vocabulary_of assignee_displayName issues (assignees issues)
  ∧ vocabulary_of status_name issues (statuses issues)
  ∧ vocabulary_of priority_name issues (priorities issues)
  ∧ (∀ field i, field i = None → vocabulary field (i :: issues) = vocabulary field issues)
  ∧ types [issue_of "A-1" (Some "Bug") None; issue_of "A-2" (Some "Story") None;
           issue_of "A-3" (Some "Bug") None]
    = ["Bug"; "Story"].
Proof.
  split; [|split; [|split; [|split; [|split]]]]; try apply vocabulary_spec.
  - intros field i Hi. unfold vocabulary. simpl. rewrite Hi. reflexivity.
  - reflexivity.
Qed.

Lemma vocabularies_sorted_distinct_witness :
  statuses [issue_of "A-1" None None; issue_of "A-2" None (Some "Open")] = ["Open"].
Proof.
  destruct (vocabularies_sorted_distinct [issue_of "A-2" None (Some "Open")])
    as (_ & _ & _ & _ & H & _).
  unfold statuses. rewrite (H status_name (issue_of "A-1" None None)); reflexivity.
Defined.

End VocabularyFacts.

(** ** Fetching, the cache and manual refresh *)

Section FetchFacts.

Import Card.
Context `{Json}.

(** The cache check finds a snapshot exactly when a usable one is stored,
    and then logs nothing. *)
Lemma lookup_cache_hit (projectKey : option string) (env : Env) (st : State)
    (c : CachedData) (log : list Event) :
  lookup_cache projectKey false env st = (Some c, log)
  ↔ usable_snapshot projectKey env st c ∧ log = [].
Proof.
  unfold lookup_cache, usable_snapshot. simpl.
  destruct (localStorage st !! cacheKey projectKey) as [cached|] eqn:Hget.
  - destruct (Js.truthy cached) eqn:Ht.
    + destruct (JSON_parse cached) as [c'|] eqn:Hp.
      * case_bool_decide as Hage; split.
        -- intros [= -> <-]. eauto.
        -- intros [(cached' & [= <-] & Hp' & _) ->]. congruence.
        -- discriminate.
        -- intros [(cached' & [= <-] & Hp' & Hage') _].
           rewrite Hp in Hp'. injection Hp' as ->. contradiction.
      * split; [discriminate|]. intros [(cached' & [= <-] & Hp' & _) _]. congruence.
    + apply truthy_false in Ht as ->. split; [discriminate|].
      intros [(cached' & [= <-] & Hp' & _) _]. rewrite JSON_parse_empty in Hp'. discriminate.
  - split; [discriminate|]. intros [(cached' & Hc & _) _]. discriminate.
Qed.

(** Whatever the cache check logs, it calls nobody. *)
Lemma lookup_cache_silent (projectKey : option string) (force : bool) (env : Env) (st : State) :
  network_calls (lookup_cache projectKey force env st).2 = [].
Proof.
  unfold lookup_cache. destruct force; simpl; [reflexivity|].
  destruct (localStorage st !! cacheKey projectKey) as [cached|]; [|reflexivity].
  destruct (Js.truthy cached); [|reflexivity].
  destruct (JSON_parse cached); [case_bool_decide|]; reflexivity.
Qed.

Lemma lookup_cache_forced (projectKey : option string) (env : Env) (st : State) :
  lookup_cache projectKey true env st = (None, []).
Proof. reflexivity. Qed.

Lemma network_calls_app (l1 l2 : list Event) :
  network_calls (l1 ++ l2) = network_calls l1 ++ network_calls l2.
Proof. apply omap_app. Qed.

(** A run that finds a snapshot. *)
Lemma fetchIssues_hit (projectKey : option string) (force : bool) (env : Env) (st : State)
    (c : CachedData) (log : list Event) :
  present projectKey = true →
  lookup_cache projectKey force env st = (Some c, log) →
  fetchIssues projectKey force env st =
    (setLoading false (setLastUpdated (timestamp c) (setIssues (cached_issues c) st)), log).
Proof. intros Hp Hl. unfold fetchIssues. rewrite Hp, Hl. reflexivity. Qed.

(** A run that finds none: the state and the log in terms of the fresh
    fetch. *)
Lemma fetchIssues_miss (projectKey : option string) (force : bool) (env : Env) (st : State)
    (log : list Event) :
  present projectKey = true →
  lookup_cache projectKey force env st = (None, log) →
  let r := fetch_fresh projectKey env (setLoading true st) in
  (fetchIssues projectKey force env st).1 = setLoading false r.1
  ∧ ∃ tail, (fetchIssues projectKey force env st).2
            = log ++ NetworkCall (backend_url projectKey) :: tail
            ∧ network_calls tail = []
            ∧ (r.2 = None → tail = []).
Proof.
  intros Hp Hl r. unfold fetchIssues. rewrite Hp, Hl. simpl. fold r.
  destruct r as [st' [err|]]; simpl; (split; [reflexivity|]); eexists; eauto.
  split; [reflexivity|]. split; [reflexivity | discriminate].
Qed.

Lemma fetchIssues_miss_calls (projectKey : option string) (force : bool) (env : Env)
    (st : State) :
  present projectKey = true →
  (lookup_cache projectKey force env st).1 = None →
  network_calls (fetchIssues projectKey force env st).2 = [backend_url projectKey].
Proof.
  intros Hp Hl. destruct (lookup_cache projectKey force env st) as [o log] eqn:Hlc.
  simpl in Hl. subst o.
  destruct (fetchIssues_miss _ _ _ _ _ Hp Hlc) as (_ & tail & -> & Htail & _).
  pose proof (lookup_cache_silent projectKey force env st) as Hs. rewrite Hlc in Hs.
  simpl in Hs. rewrite network_calls_app, Hs. simpl. rewrite Htail. reflexivity.
Qed.


(** C3, as amended: for a project key that is present and whatever is
    stored, a manual refresh makes one call to the backend; when the backend
    answers with success, the issues of the answer (none when the answer
    has no list) become the loaded issues with the instant of the answer
    as last update, and, when the store takes the write, they are stored
    with that instant under the key of the project, in place of what was
    stored there. When the store refuses the write, it stays as it was
    and the refusal is logged. *)
Theorem handleRefresh_always_fetches (projectKey : option string) (env : Env) (st : State) :
  present projectKey = true →
  let run := handleRefresh projectKey env st in
  network_calls run.2 = [backend_url projectKey]
  ∧ (∀ res_status data_issues,
       reply env = Replied res_status (JsonData data_issues) →
       Js.ok res_status = true →
       let fetched := default [] data_issues in
       let snapshot := JSON_stringify {| cached_issues := fetched; timestamp := now_fetched env |} in
       issues run.1 = fetched
       ∧ lastUpdated run.1 = Some (now_fetched env)
       ∧ loading run.1 = false
       ∧ (∀ k, k ≠ cacheKey projectKey → localStorage run.1 !! k = localStorage st !! k)
       ∧ (refusal env = None →
            localStorage run.1 = <[cacheKey projectKey := snapshot]> (localStorage st)
            ∧ localStorage run.1 !! cacheKey projectKey = Some snapshot
            ∧ run.2 = [NetworkCall (backend_url projectKey)])
       ∧ (∀ e, refusal env = Some e →
            localStorage run.1 = localStorage st
            ∧ run.2 = [NetworkCall (backend_url projectKey);
                       ConsoleError "Failed to fetch Jira issues:" e])).
Proof.
  intros Hp run. split.
  - apply fetchIssues_miss_calls; [assumption | reflexivity].
  - intros res_status data_issues Hreply Hok fetched snapshot.
    unfold run, handleRefresh, fetchIssues. rewrite Hp. simpl.
    unfold fetch_fresh, setItem. rewrite Hreply, Hok. simpl.
    destruct (refusal env) as [e|]; simpl.
    + split; [reflexivity|]. split; [reflexivity|]. split; [reflexivity|].
      split; [reflexivity|]. split; [discriminate|].
      intros e' [= <-]. split; reflexivity.
    + split; [reflexivity|]. split; [reflexivity|]. split; [reflexivity|].
      split; [intros k Hk; apply lookup_insert_ne; congruence|].
      split; [|discriminate].
      intros _. split; [reflexivity|]. split; [apply lookup_insert_eq | reflexivity].
Qed.

(** C6: when a fetch is made and fails, because the call is rejected or
    because the response is not a success, the loaded issues, the instant
    of the last update and everything stored are as they were before, and
    the loading flag is false. *)
Theorem failed_fetch_keeps_data (projectKey : option string) (force : bool)
    (env : Env) (st : State) :
  let run := fetchIssues projectKey force env st in
  network_calls run.2 ≠ [] →
  fetch_failure (reply env) →
  issues run.1 = issues st
  ∧ lastUpdated run.1 = lastUpdated st
  ∧ localStorage run.1 = localStorage st
  ∧ loading run.1 = false.
Proof.
  intros run Hcall Hfail. unfold run in *. clear run. unfold fetchIssues in *.
  destruct (present projectKey); simpl in *; [|congruence].
  pose proof (lookup_cache_silent projectKey force env st) as Hs.
  destruct (lookup_cache projectKey force env st) as [[c|] log]; simpl in Hs.
  - simpl in Hcall. congruence.
  - unfold fetch_fresh. destruct Hfail as [e|res_status body Hok].
    + simpl. auto.
    + rewrite Hok. simpl. auto.
Qed.

End FetchFacts.

Section FetchExamples.

Import Card.
#[local] Existing Instance toy_json.


Lemma handleRefresh_always_fetches_witness :
  let answer := Replied 200 (JsonData (Some [issue_of "ABC-7" (Some "Bug") None])) in
  let run := handleRefresh (Some "ABC") (env_at 2000 answer) stored_state in
  network_calls run.2 = ["http://localhost:7007/api/jira-issues/issues/ABC"]
  ∧ issues run.1 = [issue_of "ABC-7" (Some "Bug") None]
  ∧ lastUpdated run.1 = Some 2500.
Proof.
  intros answer run.
  destruct (handleRefresh_always_fetches (Some "ABC") (env_at 2000 answer) stored_state eq_refl)
    as [Hcalls Hok].
  destruct (Hok 200 (Some [issue_of "ABC-7" (Some "Bug") None]) eq_refl eq_refl)
    as (Hi & Hl & _).
  split; [exact Hcalls | split; [exact Hi | exact Hl]].
Defined.

(** C3, as stated, fails when the store refuses the write: the backend
    answers with success, the issues of the answer are loaded, and
    nothing is stored under the key of the project. *)
Lemma handleRefresh_store_refused :
  let answer := Replied 200 (JsonData (Some [issue_of "ABC-7" (Some "Bug") None])) in
  let env := env_full 2000 answer in
  let run := handleRefresh (Some "ABC") env (View.mounted ∅) in
  Js.ok 200 = true
  ∧ network_calls run.2 = ["http://localhost:7007/api/jira-issues/issues/ABC"]
  ∧ issues run.1 = [issue_of "ABC-7" (Some "Bug") None]
  ∧ localStorage run.1 !! cacheKey (Some "ABC") = None
  ∧ localStorage run.1 !! cacheKey (Some "ABC")
    ≠ Some (JSON_stringify {| cached_issues := [issue_of "ABC-7" (Some "Bug") None];
                              timestamp := now_fetched env |}).
Proof. vm_compute. repeat split; discriminate. Qed.

Lemma failed_fetch_keeps_data_witness :
  let run := fetchIssues (Some "ABC") true (env_at 2000 (Replied 401 (NotJson Js.NonError)))
               stored_state in
  issues run.1 = [issue_of "OLD-1" None None]
  ∧ lastUpdated run.1 = Some 500
  ∧ localStorage run.1 = {[ "jira-issues-ABC" := "snapshot@1000" ]}
  ∧ loading run.1 = false.
Proof.
  apply (failed_fetch_keeps_data (Some "ABC") true
           (env_at 2000 (Replied 401 (NotJson Js.NonError))) stored_state).
  - discriminate.
  - apply http_error. reflexivity.
Defined.

End FetchExamples.

(** ** The proxy route *)

Section ProxyFacts.

Import Proxy.

(** Every character falls in one of 256 cases. *)
Ltac each_byte c := destruct c as [[] [] [] [] [] [] [] []].

Lemma encodeURIComponent_String (c : ascii) (s : string) :
  encodeURIComponent (String c s) = encode_byte c +:+ encodeURIComponent s.
Proof. reflexivity. Qed.

Lemma percent_decode_escape (h l : ascii) (s : string) :
  percent_decode (String "%" (String h (String l s))) =
    match hex_value h, hex_value l, percent_decode s with
    | Some a, Some b, Some r => Some (String (ascii_of_N (16 * a + b)) r)
    | _, _, _ => None
    end.
Proof. reflexivity. Qed.

Lemma percent_decode_plain (c : ascii) (s : string) :
  c ≠ "%"%char → percent_decode (String c s) = String c <$> percent_decode s.
Proof.
  intros Hc. change (percent_decode (String c s))
    with (if Ascii.eqb c "%" then
            match s with
            | String h (String l s'') =>
                match hex_value h, hex_value l, percent_decode s'' with
                | Some a, Some b, Some r => Some (String (ascii_of_N (16 * a + b)) r)
                | _, _, _ => None
                end
            | _ => None
            end
          else String c <$> percent_decode s).
  destruct (Ascii.eqb_spec c "%"); [contradiction | reflexivity].
Qed.

Lemma decode_encode_byte (c : ascii) (rest : string) :
  percent_decode (encode_byte c +:+ rest) = String c <$> percent_decode rest.
Proof.
  each_byte c; cbv -[percent_decode fmap];
    first [rewrite percent_decode_escape | rewrite percent_decode_plain by discriminate];
    cbv -[percent_decode fmap]; destruct (percent_decode rest); reflexivity.
Qed.

(** Decoding the percent escapes gives the text back. *)
Lemma percent_decode_encode (s : string) : percent_decode (encodeURIComponent s) = Some s.
Proof.
  induction s as [|c s IH]; [reflexivity|].
  rewrite encodeURIComponent_String, decode_encode_byte, IH. reflexivity.
Qed.

Lemma encode_byte_safe (c : ascii) :
  forallb query_safe (list_ascii_of_string (encode_byte c)) = true.
Proof. each_byte c; vm_compute; reflexivity. Qed.

Lemma list_ascii_of_append (a b : string) :
  list_ascii_of_string (a +:+ b) = list_ascii_of_string a ++ list_ascii_of_string b.
Proof.
  induction a as [|c a IH]; [reflexivity|]. rewrite append_String. simpl. rewrite IH.
  reflexivity.
Qed.

(** The encoded text is made of unreserved characters and escapes only. *)
Lemma encodeURIComponent_safe (s : string) :
  forallb query_safe (list_ascii_of_string (encodeURIComponent s)) = true.
Proof.
  induction s as [|c s IH]; [reflexivity|].
  rewrite encodeURIComponent_String, list_ascii_of_append, forallb_app, encode_byte_safe, IH.
  reflexivity.
Qed.

(** C4: when the token and the base URL are read from the
    configuration, the route sends one request upstream, whatever the
    project key and whatever the upstream does: to the base URL followed
    by /rest/api/2/search, with as jql the percent-encoded query that
    selects the issues of the project whose status is not Closed,
    Resolved or Done, with maxResults 1000, and with the headers
    Authorization: Bearer token and Accept: application/json. *)
Theorem issues_route_request (config : Config) (projectKey : string) (up : Upstream)
    (jiraToken jiraUrl : string) :
  config "integrations.jira.apiToken" = inr jiraToken →
  config "integrations.jira.baseUrl" = inr jiraUrl →
  let jql := "project=" +:+ projectKey +:+ " AND status NOT IN (Closed, Resolved, Done)" in
  (issues_route config projectKey up).2 =
    [ {| url := jiraUrl +:+ "/rest/api/2/search?jql=" +:+ encodeURIComponent jql
                +:+ "&maxResults=1000";
         headers := [("Authorization", "Bearer " +:+ jiraToken);
                     ("Accept", "application/json")] |} ]
  ∧ percent_decode (encodeURIComponent jql) = Some jql
  ∧ forallb query_safe (list_ascii_of_string (encodeURIComponent jql)) = true
  ∧ encodeURIComponent (jqlQuery "ABC")
    = "project%3DABC%20AND%20status%20NOT%20IN%20(Closed%2C%20Resolved%2C%20Done)".
Proof.
  intros Htoken Hurl jql. split; [|split; [|split]].
  - unfold issues_route. rewrite Htoken, Hurl.
    destruct (relay up); reflexivity.
  - apply percent_decode_encode.
  - apply encodeURIComponent_safe.
  - reflexivity.
Qed.

Lemma issues_route_request_witness :
  (issues_route sample_config "ABC" (Unreachable Js.NonError)).2 =
    [ {| url := "https://jira.example.com/rest/api/2/search?jql=project%3DABC%20AND%20status%20NOT%20IN%20(Closed%2C%20Resolved%2C%20Done)&maxResults=1000";
         headers := [("Authorization", "Bearer s3cret"); ("Accept", "application/json")] |} ].
Proof.
  destruct (issues_route_request sample_config "ABC" (Unreachable Js.NonError)
              "s3cret" "https://jira.example.com" eq_refl eq_refl) as [-> _].
  reflexivity.
Defined.

(** The three shapes of a reply. *)
Lemma relay_cases (up : Upstream) :
  match relay up with
  | inr r =>
      match up with
      | Responded status text parsed =>
          if Js.ok status
          then ∃ data, parsed = inr data ∧ data ≠ JNull ∧ r = {| code := 200; payload := data |}
          else ∃ errorText, text = inr errorText ∧ r = upstream_error status errorText
      | Unreachable _ => False
      end
  | inl _ => True
  end.
Proof.
  destruct up as [e|status text parsed]; simpl; [exact I|].
  destruct (Js.ok status); simpl.
  - destruct parsed as [e|data]; [exact I|]. destruct data; simpl; eauto; exists _; eauto.
  - destruct text as [e|errorText]; simpl; eauto.
Qed.

(** X28: the reply of the issues route. When the upstream answers with
    success and a JSON body other than null, the reply carries that
    body; when it answers
    with another status and a text, the reply has that same status, an
    error field that names the status and a details field with the
    text, so an upstream 401 gives 401 and not 500; when the upstream
    cannot be reached or the configuration cannot be read, the reply is
    500 with an error field and a message field. *)
Theorem issues_route_reply (config : Config) (projectKey : string) (up : Upstream) :
  let r := (issues_route config projectKey up).1 in
  (∀ jiraToken jiraUrl status text data,
     config "integrations.jira.apiToken" = inr jiraToken →
     config "integrations.jira.baseUrl" = inr jiraUrl →
     up = Responded status text (inr data) → Js.ok status = true → data ≠ JNull →
     r = {| code := 200; payload := data |})
  ∧ (∀ jiraToken jiraUrl status errorText parsed,
       config "integrations.jira.apiToken" = inr jiraToken →
       config "integrations.jira.baseUrl" = inr jiraUrl →
       up = Responded status (inr errorText) parsed → Js.ok status = false →
       r = {| code := status;
              payload := JObj [("error", JStr ("Jira API error: " +:+ pretty status));
                               ("details", JStr errorText)] |}
       ∧ (status = 401 → code r = 401 ∧ code r ≠ 500
                         ∧ payload r = JObj [("error", JStr "Jira API error: 401");
                                             ("details", JStr errorText)]))
  ∧ (∀ e, (config "integrations.jira.apiToken" = inl e
           ∨ (∃ jiraToken, config "integrations.jira.apiToken" = inr jiraToken)
             ∧ config "integrations.jira.baseUrl" = inl e
           ∨ (∃ jiraToken, config "integrations.jira.apiToken" = inr jiraToken)
             ∧ (∃ jiraUrl, config "integrations.jira.baseUrl" = inr jiraUrl)
             ∧ up = Unreachable e) →
       r = {| code := 500;
              payload := JObj [("error", JStr "Internal server error");
                               ("message", JStr (match e with
                                                 | Js.ErrorObj message => message
                                                 | Js.NonError => "Unknown error"
                                                 end))] |})
  ∧ ((∃ data, r = {| code := 200; payload := data |})
     ∨ (∃ status errorText, Js.ok status = false ∧ r = upstream_error status errorText)
     ∨ (∃ e, r = internal_error e)).
Proof.
  intros r. unfold r, issues_route. clear r.
  split; [|split; [|split]].
  - intros jiraToken jiraUrl status text data -> -> -> Hok Hdata. simpl. rewrite Hok. simpl.
    destruct data; try reflexivity. contradiction.
  - intros jiraToken jiraUrl status errorText parsed -> -> -> Hok. simpl. rewrite Hok. simpl.
    split; [reflexivity|]. intros ->. repeat split. discriminate.
  - intros e [->|[[[jiraToken ->] ->]|[[jiraToken ->] [[jiraUrl ->] ->]]]];
      destruct e; reflexivity.
  - destruct (config "integrations.jira.apiToken") as [e|jiraToken]; [right; right; eauto|].
    destruct (config "integrations.jira.baseUrl") as [e|jiraUrl]; [right; right; eauto|].
    pose proof (relay_cases up) as Hr. destruct (relay up) as [e|rep]; [right; right; eauto|].
    destruct up as [e|status text parsed]; [contradiction|]. simpl.
    destruct (Js.ok status) eqn:Hok.
    + destruct Hr as (data & _ & _ & ->). left. eauto.
    + destruct Hr as (errorText & _ & ->). right. left. eauto.
Qed.

(** C5: on upstream success the route is to return the upstream JSON
    body. For an upstream that answers 200 with the body null it does
    not: reading [data.issues] for the log line throws before the body
    is sent, and the reply is 500 with an error and a message. *)
Lemma issues_route_null_body :
  let r := (issues_route sample_config "ABC" (Responded 200 (inr "null") (inr JNull))).1 in
  Js.ok 200 = true
  ∧ r = {| code := 500;
           payload := JObj [("error", JStr "Internal server error");
                            ("message",
                             JStr "Cannot read properties of null (reading 'issues')")] |}
  ∧ r ≠ {| code := 200; payload := JNull |}
  ∧ payload r ≠ JNull.
Proof. repeat split; discriminate. Qed.

Lemma issues_route_reply_witness :
  (issues_route sample_config "ABC"
     (Responded 401 (inr "Unauthorized") (inl Js.NonError))).1
  = {| code := 401;
       payload := JObj [("error", JStr "Jira API error: 401");
                        ("details", JStr "Unauthorized")] |}.
Proof.
  destruct (issues_route_reply sample_config "ABC"
              (Responded 401 (inr "Unauthorized") (inl Js.NonError))) as (_ & Herr & _).
  destruct (Herr "s3cret" "https://jira.example.com" 401 "Unauthorized" (inl Js.NonError)
              eq_refl eq_refl eq_refl eq_refl) as [-> _].
  reflexivity.
Defined.

End ProxyFacts.

(** ** Row highlight by issue type *)

Section RowStyleFacts.

Import RowStyle.

(** The two if-chains are one classification followed by a palette. *)
Lemma getIssueTypeRowStyle_classify (issueType : string) (isDarkMode : bool) :
  getIssueTypeRowStyle issueType isDarkMode
  = {| backgroundColor := tint isDarkMode <$> classify issueType |}.
Proof.
  unfold getIssueTypeRowStyle, classify, kinds, announces. cbv zeta.
  generalize (Js.toLowerCase issueType). intros l. destruct isDarkMode; cbn;
    repeat match goal with
           | |- context [Js.includes l ?k] => destruct (Js.includes l k); cbn
           end; reflexivity.
Qed.

(** X1: the visual mode only changes the palette: a type name is
    highlighted in dark mode exactly when it is in light mode, both
    modes pick the same kind of issue for it, and names that differ only
    in the case of their letters get the same style. *)
Theorem row_highlight_mode_independent (issueType : string) :
  (backgroundColor (getIssueTypeRowStyle issueType true) = None
   ↔ backgroundColor (getIssueTypeRowStyle issueType false) = None)
  ∧ (∀ dark, backgroundColor (getIssueTypeRowStyle issueType dark)
             = tint dark <$> classify issueType)
  ∧ (∀ other dark, Js.toLowerCase other = Js.toLowerCase issueType →
       getIssueTypeRowStyle other dark = getIssueTypeRowStyle issueType dark).
Proof.
  split; [|split].
  - rewrite !getIssueTypeRowStyle_classify. simpl.
    destruct (classify issueType); simpl; split; congruence.
  - intros dark. rewrite getIssueTypeRowStyle_classify. reflexivity.
  - intros other dark Heq. unfold getIssueTypeRowStyle. rewrite Heq. reflexivity.
Qed.

Lemma row_highlight_mode_independent_witness :
  getIssueTypeRowStyle "SUB-TASK" true = getIssueTypeRowStyle "Sub-task" true.
Proof.
  destruct (row_highlight_mode_independent "Sub-task") as (_ & _ & H).
  apply H. reflexivity.
Defined.

(** X2: the kinds are tried in the order bug, epic, story, spike, task,
    improvement: a type name gets the tint of a kind when one of the
    words of that kind occurs in it, in any case, and no word of an
    earlier kind does; a name in which no word occurs gets no style. *)
Theorem row_highlight_first_kind (issueType : string) (dark : bool) :
  (∀ pre k post, kinds = pre ++ k :: post →
     Forall (λ h, announces issueType h = false) pre →
     announces issueType k = true →
     getIssueTypeRowStyle issueType dark = background (tint dark k))
  ∧ (Forall (λ h, announces issueType h = false) kinds →
     getIssueTypeRowStyle issueType dark = no_style)
  ∧ (∀ k, announces issueType k = true
          ↔ ∃ w a b, w ∈ words k ∧ Js.toLowerCase issueType = a +:+ w +:+ b).
Proof.
  split; [|split].
  - intros pre k post Hk Hpre Hm. rewrite getIssueTypeRowStyle_classify. unfold classify.
    rewrite Hk, (find_first _ pre post k Hpre Hm). reflexivity.
  - intros Hnone. rewrite getIssueTypeRowStyle_classify. unfold classify.
    rewrite (find_nothing _ _ Hnone). reflexivity.
  - intros k. unfold announces. rewrite existsb_exists. split.
    + intros (w & Hw & Hin). apply includes_app in Hin as (a & b & Hab).
      exists w, a, b. split; [apply list_elem_of_In; assumption | assumption].
    + intros (w & a & b & Hw & Hab). exists w. split; [apply list_elem_of_In; assumption|].
      apply includes_app. eauto.
Qed.

Lemma row_highlight_first_kind_witness :
  getIssueTypeRowStyle "Bug in a User Story" false = background "#ffebee".
Proof.
  destruct (row_highlight_first_kind "Bug in a User Story" false) as (H & _).
  apply (H [] Bug (tail kinds)); [reflexivity | constructor | reflexivity].
Defined.



(** X4: a row whose issue has no type, or a type with an empty name,
    gets no style in either mode; any other row gets the style of its
    type name. *)
Theorem rowStyle_by_type (dark : bool) (rowData : Card.JiraIssue) :
  (Card.issuetype_name rowData = None → rowStyle dark rowData = no_style)
  ∧ (Card.issuetype_name rowData = Some "" → rowStyle dark rowData = no_style)
  ∧ (∀ n, Card.issuetype_name rowData = Some n →
       rowStyle dark rowData = getIssueTypeRowStyle n dark).
Proof.
  unfold rowStyle. split; [|split].
  - intros ->. reflexivity.
  - intros ->. reflexivity.
  - intros n ->. destruct (Js.truthy n) eqn:Hn; [reflexivity|].
    apply truthy_false in Hn as ->. destruct dark; reflexivity.
Qed.

Lemma rowStyle_by_type_witness :
  rowStyle true (Card.issue_of "A-1" (Some "Epic") None) = background "rgba(33, 150, 243, 0.15)".
Proof.
  destruct (rowStyle_by_type true (Card.issue_of "A-1" (Some "Epic") None)) as (_ & _ & H).
  rewrite (H "Epic" eq_refl). reflexivity.
Defined.

End RowStyleFacts.

(** ** Filters, options and titles *)

Section SelectionFacts.

Import Card View.

Lemma filter_all {A} (f : A → bool) (l : list A) :
  (∀ x, f x = true) → List.filter f l = l.
Proof. intros Hf. induction l as [|x l IH]; simpl; [|rewrite Hf, IH]; reflexivity. Qed.

Lemma filter_filter {A} (f g : A → bool) (l : list A) :
  List.filter f (List.filter g l) = List.filter (λ x, g x && f x) l.
Proof.
  induction l as [|x l IH]; simpl; [reflexivity|].
  destruct (g x); simpl; [destruct (f x)|]; rewrite IH; reflexivity.
Qed.

Lemma filter_ext_in {A} (f g : A → bool) (l : list A) :
  (∀ x, f x = g x) → List.filter f l = List.filter g l.
Proof. intros Hfg. induction l as [|x l IH]; simpl; [|rewrite Hfg, IH]; reflexivity. Qed.

Lemma filter_sublist {A} (f : A → bool) (l : list A) : sublist (List.filter f l) l.
Proof.
  induction l as [|x l IH]; simpl; [constructor|].
  destruct (f x); [apply sublist_skip | apply sublist_cons]; exact IH.
Qed.

Lemma hasActiveFilters_false (sel : FilterSelection) :
  hasActiveFilters sel = false ↔ sel = handleClearFilters.
Proof.
  unfold hasActiveFilters. rewrite !orb_false_iff, !truthy_false. split.
  - intros [[[Ht Ha] Hs] Hp]. destruct sel; simpl in *. subst. reflexivity.
  - intros ->. auto.
Qed.

(** X5: no filter is active exactly when the selection is the one that
    Clear Filters sets; the table then shows every loaded issue, in
    order, and its title gives their number alone. *)
Theorem clear_filters_shows_all (issues : list JiraIssue) (sel : FilterSelection) :
  (hasActiveFilters sel = false ↔ sel = handleClearFilters)
  ∧ filteredIssues issues handleClearFilters = issues
  ∧ title issues handleClearFilters
    = "Jira Issues (" +:+ pretty (Z.of_nat (length issues)) +:+ ")"
  ∧ (hasActiveFilters sel = false → filteredIssues issues sel = issues).
Proof.
  assert (Hall : filteredIssues issues handleClearFilters = issues).
  { apply filter_all. intros i. reflexivity. }
  split; [apply hasActiveFilters_false|]. split; [exact Hall|]. split.
  - unfold title. rewrite Hall. reflexivity.
  - intros Hsel. apply hasActiveFilters_false in Hsel as ->. exact Hall.
Qed.

Lemma clear_filters_shows_all_witness :
  filteredIssues [issue_of "A-1" None None] handleClearFilters = [issue_of "A-1" None None].
Proof.
  destruct (clear_filters_shows_all [issue_of "A-1" None None] handleClearFilters)
    as (_ & _ & _ & H).
  apply H. reflexivity.
Defined.

Lemma keep_narrows (sel' sel : FilterSelection) (i : JiraIssue) :
  narrows sel' sel → keep sel' i = true → keep sel i = true.
Proof.
  intros (Ht & Ha & Hs & Hp). rewrite !keep_matches. unfold matches, matches_field.
  intros (Mt & Ma & Ms & Mp).
  repeat split.
  - destruct Ht as [?|Ht]; [tauto|]. rewrite <- Ht. exact Mt.
  - destruct Ha as [?|Ha]; [tauto|]. rewrite <- Ha. exact Ma.
  - destruct Hs as [?|Hs]; [tauto|]. rewrite <- Hs. exact Ms.
  - destruct Hp as [?|Hp]; [tauto|]. rewrite <- Hp. exact Mp.
Qed.

(** X6: filtering only removes rows. The displayed list is a sublist of
    the loaded list, so the count in the title is at most the total; and
    a selection that keeps the filters of another and sets more shows a
    sublist of what the other shows, the same as filtering its result. *)
Theorem filters_only_narrow (issues : list JiraIssue) (sel sel' : FilterSelection) :
  sublist (filteredIssues issues sel) issues
  ∧ (length (filteredIssues issues sel) ≤ length issues)%nat
  ∧ (narrows sel' sel →
       filteredIssues issues sel' = filteredIssues (filteredIssues issues sel) sel'
       ∧ sublist (filteredIssues issues sel') (filteredIssues issues sel)).
Proof.
  split; [apply filter_sublist|]. split; [apply sublist_length, filter_sublist|].
  intros Hn.
  assert (Heq : filteredIssues issues sel' = filteredIssues (filteredIssues issues sel) sel').
  { unfold filteredIssues. rewrite filter_filter. apply filter_ext_in. intros i.
    destruct (keep sel' i) eqn:Hk.
    - rewrite (keep_narrows sel' sel i Hn Hk). reflexivity.
    - rewrite andb_false_r. reflexivity. }
  split; [exact Heq|]. rewrite Heq. apply filter_sublist.
Qed.

Lemma filters_only_narrow_witness :
  sublist
    (filteredIssues [issue_of "A-1" (Some "Bug") (Some "Open")]
       {| selectedType := "Bug"; selectedAssignee := ""; selectedStatus := "Open";
          selectedPriority := "" |})
    (filteredIssues [issue_of "A-1" (Some "Bug") (Some "Open")] (only_status "Open")).
Proof.
  destruct (filters_only_narrow [issue_of "A-1" (Some "Bug") (Some "Open")]
              (only_status "Open")
              {| selectedType := "Bug"; selectedAssignee := ""; selectedStatus := "Open";
                 selectedPriority := "" |}) as (_ & _ & H).
  apply H. unfold narrows. simpl. auto.
Defined.

(** X7: the four filters act one after the other: the displayed list is
    the loaded list filtered by type, then by assignee, then by status,
    then by priority. *)
Theorem filters_act_in_turn (issues : list JiraIssue) (sel : FilterSelection) :
  filteredIssues issues sel
  = filteredIssues
      (filteredIssues
         (filteredIssues (filteredIssues issues (only_type (selectedType sel)))
            (only_assignee (selectedAssignee sel)))
         (only_status (selectedStatus sel)))
      (only_priority (selectedPriority sel)).
Proof.
  unfold filteredIssues. rewrite !filter_filter. apply filter_ext_in. intros i.
  unfold keep, only_type, only_assignee, only_status, only_priority. simpl.
  destruct (Js.truthy (selectedType sel) && _),
           (Js.truthy (selectedAssignee sel) && _),
           (Js.truthy (selectedStatus sel) && _),
           (Js.truthy (selectedPriority sel) && _); reflexivity.
Qed.

End SelectionFacts.

(** ** Options of the filter menus *)

Section OptionFacts.

Import Card View.

Lemma filtered_nonempty (issues : list JiraIssue) (sel : FilterSelection) :
  filteredIssues issues sel ≠ [] ↔ ∃ i, i ∈ issues ∧ keep sel i = true.
Proof.
  unfold filteredIssues. split.
  - intros Hne. destruct (List.filter (keep sel) issues) as [|i l] eqn:Hf; [contradiction|].
    assert (Hin : In i (List.filter (keep sel) issues)) by (rewrite Hf; left; reflexivity).
    apply filter_In in Hin as [Hin Hk]. exists i. split; [apply list_elem_of_In|]; assumption.
  - intros (i & Hi & Hk) Hnil.
    assert (Hin : In i (List.filter (keep sel) issues)).
    { apply filter_In. split; [apply list_elem_of_In|]; assumption. }
    rewrite Hnil in Hin. destruct Hin.
Qed.

(** One menu: a value other than "all" shows rows exactly when it is an
    option of the menu, and then every row shown has that value. *)
Lemma option_shows_rows (field : JiraIssue → option string) (only : string → FilterSelection)
    (issues : list JiraIssue) (x : string) :
  (∀ y i, keep (only y) i = true ↔ matches_field y (field i)) →
  x ≠ "" →
  (filteredIssues issues (only x) ≠ [] ↔ x ∈ vocabulary field issues)
  ∧ ∀ i, i ∈ filteredIssues issues (only x) → field i = Some x.
Proof.
  intros Hk Hx. split.
  - rewrite filtered_nonempty. destruct (vocabulary_spec field issues) as (_ & _ & Hv).
    rewrite Hv. split.
    + intros (i & Hi & Hkeep). apply Hk in Hkeep as [?|Hf]; [contradiction|]. eauto.
    + intros (_ & i & Hi & Hf). exists i. split; [assumption|]. apply Hk. right. assumption.
  - intros i Hi. apply list_elem_of_In, filter_In in Hi as [_ Hkeep].
    apply Hk in Hkeep as [?|Hf]; [contradiction | assumption].
Qed.

Lemma keep_only (pick : FilterSelection → string) (field : JiraIssue → option string)
    (only : string → FilterSelection) :
  (∀ y i, keep (only y) i
          = negb (Js.truthy y && Js.strict_ne (field i) y)) →
  ∀ y i, keep (only y) i = true ↔ matches_field y (field i).
Proof.
  intros Hk y i. rewrite Hk, negb_true_iff. apply guard_matches.
Qed.

(** X8: in each of the four menus, choosing a value other than "all"
    shows at least one row exactly when that value is among the options
    the menu offers, and every row it shows has that value: no option is
    a dead end and no row slips through. *)
Theorem menu_options_show_rows (issues : list JiraIssue) (x : string) :
  x ≠ "" →
  ((filteredIssues issues (only_type x) ≠ [] ↔ x ∈ types issues)
   ∧ ∀ i, i ∈ filteredIssues issues (only_type x) → issuetype_name i = Some x)
  ∧ ((filteredIssues issues (only_assignee x) ≠ [] ↔ x ∈ assignees issues)
     ∧ ∀ i, i ∈ filteredIssues issues (only_assignee x) → assignee_displayName i = Some x)
  ∧ ((filteredIssues issues (only_status x) ≠ [] ↔ x ∈ statuses issues)
     ∧ ∀ i, i ∈ filteredIssues issues (only_status x) → status_name i = Some x)
  ∧ ((filteredIssues issues (only_priority x) ≠ [] ↔ x ∈ priorities issues)
     ∧ ∀ i, i ∈ filteredIssues issues (only_priority x) → priority_name i = Some x).
Proof.
  intros Hx. repeat apply conj.
  all: try (apply option_shows_rows; [|exact Hx]).
  all: try (intros i; apply option_shows_rows; [|exact Hx]).
  all: apply (keep_only (λ _, "")); intros y i; unfold keep; simpl;
    destruct (Js.truthy y && _); reflexivity.
Qed.

Lemma menu_options_show_rows_witness :
  filteredIssues [issue_of "A-1" (Some "Bug") None] (only_type "Story") = [].
Proof.
  destruct (menu_options_show_rows [issue_of "A-1" (Some "Bug") None] "Story")
    as ((Hiff & _) & _); [discriminate|].
  destruct (filteredIssues [issue_of "A-1" (Some "Bug") None] (only_type "Story")) eqn:Hf;
    [reflexivity|].
  assert (Hin : "Story" ∈ types [issue_of "A-1" (Some "Bug") None]) by (apply Hiff; discriminate).
  apply (bool_decide_pack _) in Hin. vm_compute in Hin. destruct Hin.
Defined.

(** X9: the options of a menu depend only on which values occur: two
    lists of issues in which the same values occur for a field, whatever
    their order and their repetitions, give the same options. *)
Theorem options_depend_on_values (field : JiraIssue → option string)
    (issues issues' : list JiraIssue) :
  (∀ x, (∃ i, i ∈ issues ∧ field i = Some x) ↔ (∃ i, i ∈ issues' ∧ field i = Some x)) →
  vocabulary field issues = vocabulary field issues'.
Proof.
  intros Hsame. apply (vocabulary_of_unique field issues); [apply vocabulary_spec|].
  destruct (vocabulary_spec field issues') as (Hs & Hn & Hv).
  split; [exact Hs|]. split; [exact Hn|].
  intros x. rewrite Hv, Hsame. reflexivity.
Qed.

Lemma options_depend_on_values_witness :
  statuses [issue_of "A-1" None (Some "Open"); issue_of "A-2" None (Some "Done");
            issue_of "A-1" None (Some "Open")]
  = statuses [issue_of "A-2" None (Some "Done"); issue_of "A-1" None (Some "Open")].
Proof.
  apply (options_depend_on_values status_name).
  intros x. split; intros (i & Hi & Hf); exists i; (split; [|exact Hf]);
    rewrite !elem_of_cons in *; tauto.
Defined.

Lemma Set_add_all_length (seen l : list string) :
  (length (Js.Set_add_all seen l) ≤ length seen + length l)%nat.
Proof.
  revert seen. induction l as [|x l IH]; intros seen; simpl; [lia|].
  case_bool_decide.
  - specialize (IH seen). lia.
  - specialize (IH (seen ++ [x])). rewrite length_app in IH. simpl in IH. lia.
Qed.

Lemma omap_id_length (l : list (option string)) : (length (omap id l) ≤ length l)%nat.
Proof. induction l as [|[x|] l IH]; cbn in *; lia. Qed.

Lemma filter_length_le {A} (f : A → bool) (l : list A) :
  (length (List.filter f l) ≤ length l)%nat.
Proof. induction l as [|x l IH]; simpl; [|destruct (f x); simpl]; lia. Qed.

(** X10: a menu never offers more options than there are loaded issues,
    and offers none when no issue is loaded or when no loaded issue has a
    non-empty value for the field. *)
Theorem options_at_most_issues (field : JiraIssue → option string) (issues : list JiraIssue) :
  (length (vocabulary field issues) ≤ length issues)%nat
  ∧ vocabulary field [] = []
  ∧ (vocabulary field issues = []
     ↔ ∀ i, i ∈ issues → field i = None ∨ field i = Some "").
Proof.
  split; [|split].
  - unfold vocabulary, Js.sort, Js.Set_from.
    rewrite merge_sort_Permutation.
    pose proof (Set_add_all_length [] (omap id (List.filter Boolean (map field issues)))) as H1.
    pose proof (omap_id_length (List.filter Boolean (map field issues))) as H2.
    pose proof (filter_length_le Boolean (map field issues)) as H3.
    rewrite length_map in H3. simpl in H1. lia.
  - reflexivity.
  - destruct (vocabulary_spec field issues) as (_ & _ & Hv). split.
    + intros Hnil i Hi. destruct (field i) as [x|] eqn:Hf; [|left; reflexivity]. right.
      destruct (decide (x = "")) as [->|Hx]; [reflexivity|].
      assert (Hin : x ∈ vocabulary field issues) by (apply Hv; eauto).
      rewrite Hnil in Hin. apply elem_of_nil in Hin. destruct Hin.
    + intros Hall. destruct (vocabulary field issues) as [|x v]; [reflexivity|].
      assert (Hx : x ∈ x :: v) by (left).
      apply Hv in Hx as (Hne & i & Hi & Hf).
      destruct (Hall i Hi) as [Hn|Hn]; rewrite Hf in Hn; congruence.
Qed.

(** X11: a row whose issue has no assignee, or an assignee with an empty
    display name, reads "Unassigned"; such a row passes no assignee
    filter other than "all", and it adds no option to the assignee
    menu. *)
Theorem unassigned_rows (row : JiraIssue) :
  assignee_displayName row = None ∨ assignee_displayName row = Some "" →
  assignee_cell row = "Unassigned"
  ∧ (∀ sel, selectedAssignee sel ≠ "" → keep sel row = false)
  ∧ (∀ issues, assignees (row :: issues) = assignees issues).
Proof.
  intros Hrow. split; [|split].
  - unfold assignee_cell. destruct Hrow as [-> | ->]; reflexivity.
  - intros sel Hsel. destruct (keep sel row) eqn:Hk; [|reflexivity].
    apply keep_matches in Hk as (_ & [?|Ha] & _); [contradiction|].
    destruct Hrow as [Hr|Hr]; rewrite Hr in Ha; congruence.
  - intros issues. unfold assignees, vocabulary. simpl.
    destruct Hrow as [-> | ->]; reflexivity.
Qed.

Lemma unassigned_rows_witness : assignee_cell (issue_of "A-1" (Some "Bug") None) = "Unassigned".
Proof. apply (unassigned_rows (issue_of "A-1" (Some "Bug") None)). left. reflexivity. Defined.

End OptionFacts.

(** ** Runs of [fetchIssues] *)

Section RunFacts.

Import Card View.
Context `{Json}.

Lemma fetch_fresh_cases (projectKey : option string) (env : Env) (st : State) :
  (bad_reply (reply env) = true
   ∧ (fetch_fresh projectKey env st).1 = st
   ∧ is_Some (fetch_fresh projectKey env st).2)
  ∨ (bad_reply (reply env) = false
     ∧ refusal env = None
     ∧ fetch_fresh projectKey env st
       = (with_item (cacheKey projectKey) (JSON_stringify (snapshot_of env))
            (setLastUpdated (now_fetched env)
               (setIssues (cached_issues (snapshot_of env)) st)), None))
  ∨ (bad_reply (reply env) = false
     ∧ ∃ e, refusal env = Some e
            ∧ fetch_fresh projectKey env st
              = (setLastUpdated (now_fetched env)
                   (setIssues (cached_issues (snapshot_of env)) st), Some e)).
Proof.
  unfold fetch_fresh, bad_reply, snapshot_of, setItem.
  destruct (reply env) as [e|res_status body]; simpl; [left; eauto|].
  destruct (Js.ok res_status); simpl; [|left; eauto].
  destruct body; simpl; [left; eauto | left; eauto |].
  right. destruct (refusal env) as [e|]; [right | left]; eauto.
Qed.

Lemma threw_app (l1 l2 : list Event) : threw (l1 ++ l2) = threw l1 || threw l2.
Proof. apply existsb_app. Qed.

Lemma lookup_cache_quiet (projectKey : option string) (force : bool) (env : Env) (st : State) :
  threw (lookup_cache projectKey force env st).2 = false.
Proof.
  unfold lookup_cache. destruct force; simpl; [reflexivity|].
  destruct (localStorage st !! cacheKey projectKey) as [cached|]; [|reflexivity].
  destruct (Js.truthy cached); [|reflexivity].
  destruct (JSON_parse cached); [case_bool_decide|]; reflexivity.
Qed.

(** The four ways a run with a project key can go. *)
Lemma fetchIssues_ways (projectKey : option string) (force : bool) (env : Env) (st : State) :
  present projectKey = true →
  let run := fetchIssues projectKey force env st in
  (* the snapshot is used *)
  (∃ c, force = false ∧ usable_snapshot projectKey env st c
        ∧ run = (setLoading false (setLastUpdated (timestamp c)
                                     (setIssues (cached_issues c) st)), []))
  (* the backend is asked and the answer is bad *)
  ∨ (bad_reply (reply env) = true
     ∧ run.1 = setLoading false (setLoading true st)
     ∧ network_calls run.2 = [backend_url projectKey]
     ∧ threw run.2 = true)
  (* the backend is asked, the answer is good and the store takes it *)
  ∨ (bad_reply (reply env) = false
     ∧ refusal env = None
     ∧ run.1 = setLoading false
                 (with_item (cacheKey projectKey) (JSON_stringify (snapshot_of env))
                    (setLastUpdated (now_fetched env)
                       (setIssues (cached_issues (snapshot_of env)) (setLoading true st))))
     ∧ network_calls run.2 = [backend_url projectKey]
     ∧ threw run.2 = false)
  (* the backend is asked, the answer is good and the store refuses it *)
  ∨ (bad_reply (reply env) = false
     ∧ is_Some (refusal env)
     ∧ run.1 = setLoading false
                 (setLastUpdated (now_fetched env)
                    (setIssues (cached_issues (snapshot_of env)) (setLoading true st)))
     ∧ network_calls run.2 = [backend_url projectKey]
     ∧ threw run.2 = true).
Proof.
  intros Hp run.
  destruct (lookup_cache projectKey force env st) as [[c|] log] eqn:Hl.
  - left. exists c. destruct force; [discriminate|].
    apply lookup_cache_hit in Hl as Hu. destruct Hu as [Hu ->].
    repeat split; [assumption|]. apply fetchIssues_hit; assumption.
  - right.
    assert (Hcalls : network_calls run.2 = [backend_url projectKey]).
    { apply fetchIssues_miss_calls; [assumption|]. rewrite Hl. reflexivity. }
    pose proof (lookup_cache_quiet projectKey force env st) as Hq. rewrite Hl in Hq.
    simpl in Hq.
    unfold run, fetchIssues in *. rewrite Hp, Hl in *. simpl in *.
    destruct (fetch_fresh_cases projectKey env (setLoading true st))
      as [(Hbad & Hst & [e He])|[(Hgood & Hw & Hf)|(Hgood & e & Hw & Hf)]].
    + left. destruct (fetch_fresh projectKey env (setLoading true st)) as [st' o].
      simpl in *. subst. simpl in *. repeat split; try assumption.
      rewrite threw_app, Hq. reflexivity.
    + right. left. rewrite Hf in *. simpl in *. repeat split; try assumption.
      rewrite threw_app, Hq. reflexivity.
    + right. right. rewrite Hf in *. simpl in *. repeat split; try assumption.
      * rewrite Hw. eauto.
      * rewrite threw_app, Hq. reflexivity.
Qed.

(** A run seen from the outside: what is on display and in store after
    it, whether it called, whether it threw. *)
Ltac ways Hp :=
  match type of Hp with
  | present ?pk = true =>
      match goal with
      | |- context [fetchIssues pk ?force ?env ?st] =>
          let H := fresh "Hways" in
          pose proof (fetchIssues_ways pk force env st Hp) as H; cbv zeta in H;
          destruct H as [(?c & ?Hforce & ?Husable & Hrun)
                        |[(Hreply & Hrun & Hcalls & Hthrew)
                         |[(Hreply & Hstore & Hrun & Hcalls & Hthrew)
                          |(Hreply & Hstore & Hrun & Hcalls & Hthrew)]]]
      end
  end.

Lemma cacheKey_inj (k k' : string) : cacheKey (Some k) = cacheKey (Some k') → k = k'.
Proof. unfold cacheKey. cbv [template String.append]. congruence. Qed.

(** X12: without a project key, absent or empty, a call of [fetchIssues]
    does nothing, forced or not: no call to the backend, nothing logged,
    the state and the store untouched; and the card renders nothing. *)
Theorem fetchIssues_without_key (projectKey : option string) (force : bool)
    (env : Env) (st : State) :
  projectKey = None ∨ projectKey = Some "" →
  fetchIssues projectKey force env st = (st, [])
  ∧ render projectKey (fetchIssues projectKey force env st).1 = Nothing.
Proof. intros [-> | ->]; split; reflexivity. Qed.


(** X14: a run throws exactly when it asks the backend and either the
    answer is bad (the call is rejected, the response is not a success,
    the body is not JSON or is null) or the store refuses the write. A
    run that throws never changes the store. After a bad answer the
    issues on display and the instant of the last update are as they
    were; after a good answer they are those of the answer, also when
    the store then refuses the write. *)
Theorem fetchIssues_throw_keeps_data (projectKey : option string) (force : bool)
    (env : Env) (st : State) :
  let run := fetchIssues projectKey force env st in
  (threw run.2 = true
   ↔ network_calls run.2 ≠ []
     ∧ (bad_reply (reply env) = true ∨ is_Some (refusal env)))
  ∧ (threw run.2 = true → localStorage run.1 = localStorage st)
  ∧ (threw run.2 = true → bad_reply (reply env) = true → data run.1 = data st)
  ∧ (network_calls run.2 ≠ [] → bad_reply (reply env) = false →
     issues run.1 = cached_issues (snapshot_of env)
     ∧ lastUpdated run.1 = Some (now_fetched env)).
Proof.
  intros run. subst run. destruct (present projectKey) eqn:Hp.
  - ways Hp.
    + rewrite Hrun. simpl. split; [|split; [|split]]; try discriminate.
      * split; [discriminate | intros [[] _]; reflexivity].
      * intros []. reflexivity.
    + rewrite Hthrew, Hcalls, Hrun, Hreply. split; [|split; [|split]]; try reflexivity.
      * split; [|reflexivity]. intros _. split; [discriminate | left; reflexivity].
      * discriminate.
    + rewrite Hthrew, Hcalls, Hreply, Hstore. split; [|split; [|split]]; try discriminate.
      * split; [discriminate|]. intros [_ [?|[? ?]]]; discriminate.
      * intros _ _. rewrite Hrun. split; reflexivity.
    + rewrite Hthrew, Hcalls, Hreply. split; [|split; [|split]].
      * split; [|reflexivity]. intros _. split; [discriminate | right; exact Hstore].
      * intros _. rewrite Hrun. reflexivity.
      * discriminate.
      * intros _ _. rewrite Hrun. split; reflexivity.
  - unfold fetchIssues. rewrite Hp. simpl.
    split; [|split; [|split]]; try discriminate.
    + split; [discriminate | intros [[] _]; reflexivity].
    + intros []. reflexivity.
Qed.

(** X15: a run writes nowhere in the store but under the key of its own
    project, and projects with different keys have different store
    keys: fetching one project leaves the snapshot of every other
    project as it was. *)
Theorem fetchIssues_store_isolated (projectKey : option string) (force : bool)
    (env : Env) (st : State) :
  let run := fetchIssues projectKey force env st in
  (∀ k, k ≠ cacheKey projectKey → localStorage run.1 !! k = localStorage st !! k)
  ∧ (∀ mine other, projectKey = Some mine → other ≠ mine →
       cacheKey (Some other) ≠ cacheKey projectKey
       ∧ localStorage run.1 !! cacheKey (Some other) = localStorage st !! cacheKey (Some other)).
Proof.
  intros run. subst run.
  assert (Hkeys : ∀ k, k ≠ cacheKey projectKey →
            localStorage (fetchIssues projectKey force env st).1 !! k = localStorage st !! k).
  { intros k Hk. destruct (present projectKey) eqn:Hp.
    - ways Hp; rewrite Hrun; simpl; try reflexivity.
      apply lookup_insert_ne. congruence.
    - unfold fetchIssues. rewrite Hp. reflexivity. }
  split; [exact Hkeys|].
  intros mine other -> Hne.
  assert (Hk : cacheKey (Some other) ≠ cacheKey (Some mine)).
  { intros Heq. apply cacheKey_inj in Heq. contradiction. }
  split; [exact Hk | apply Hkeys; exact Hk].
Qed.

(** X16: what a good answer makes the card store serves the next fetch
    until it expires. When the codec reads back the snapshot that was
    written, the next fetch that is not forced calls nobody exactly when
    it happens less than three hours after the answer, and it then
    leaves the card as it was. *)
Theorem stored_snapshot_serves_until_expiry (projectKey : option string) (force : bool)
    (env later : Env) (st : State) :
  present projectKey = true →
  let run := fetchIssues projectKey force env st in
  network_calls run.2 ≠ [] →
  threw run.2 = false →
  JSON_parse (JSON_stringify (snapshot_of env)) = Some (snapshot_of env) →
  let next := fetchIssues projectKey false later run.1 in
  (network_calls next.2 = [] ↔ now_lookup later - now_fetched env < CACHE_DURATION)
  ∧ (now_lookup later - now_fetched env < CACHE_DURATION → next = (run.1, []))
  ∧ (CACHE_DURATION ≤ now_lookup later - now_fetched env →
       network_calls next.2 = [backend_url projectKey]).
Proof.
  intros Hp run Hcall Hquiet Hcodec next.
  assert (Hrun' : run.1 = setLoading false
                   (with_item (cacheKey projectKey) (JSON_stringify (snapshot_of env))
                      (setLastUpdated (now_fetched env)
                         (setIssues (cached_issues (snapshot_of env)) (setLoading true st))))).
  { subst run next. ways Hp.
    - rewrite Hrun in Hcall. contradiction.
    - congruence.
    - exact Hrun.
    - congruence. }
  assert (Hts : timestamp (snapshot_of env) = now_fetched env).
  { unfold snapshot_of. destruct (reply env) as [|? []]; reflexivity. }
  assert (Hstored : localStorage run.1 !! cacheKey projectKey
                    = Some (JSON_stringify (snapshot_of env))).
  { rewrite Hrun'. simpl. apply lookup_insert_eq. }
  assert (Hfresh : now_lookup later - now_fetched env < CACHE_DURATION →
            next = (run.1, [])).
  { intros Hage. unfold next.
    rewrite (fetchIssues_hit projectKey false later run.1 (snapshot_of env) []);
      [|assumption|].
    - rewrite Hrun', Hts. reflexivity.
    - apply lookup_cache_hit. split; [|reflexivity].
      exists (JSON_stringify (snapshot_of env)). rewrite Hts. auto. }
  assert (Hstale : CACHE_DURATION ≤ now_lookup later - now_fetched env →
            network_calls next.2 = [backend_url projectKey]).
  { intros Hage. apply fetchIssues_miss_calls; [assumption|].
    destruct (lookup_cache projectKey false later run.1) as [[c|] log] eqn:Hl; [|reflexivity].
    apply lookup_cache_hit in Hl as [(cached & Hget & Hparse & Hlt) _].
    rewrite Hstored in Hget. injection Hget as <-.
    rewrite Hcodec in Hparse. injection Hparse as <-. rewrite Hts in Hlt. lia. }
  split; [|split; assumption].
  split.
  - intros Hnone. destruct (Z.lt_ge_cases (now_lookup later - now_fetched env) CACHE_DURATION)
      as [Hlt|Hge]; [assumption|].
    rewrite (Hstale Hge) in Hnone. discriminate.
  - intros Hlt. rewrite (Hfresh Hlt). reflexivity.
Qed.

(** X17: the card and the store agree after every run that does not
    throw, when the codec reads back the snapshot that was written: the
    text stored for the project parses to the issues on display and to
    the instant of the last update. A run that throws on a bad answer
    keeps that agreement if it held before; so does every run when the
    store takes its writes. *)
Theorem display_agrees_with_store (projectKey : option string) (force : bool)
    (env : Env) (st : State) :
  present projectKey = true →
  JSON_parse (JSON_stringify (snapshot_of env)) = Some (snapshot_of env) →
  let run := fetchIssues projectKey force env st in
  (threw run.2 = false → coherent projectKey run.1)
  ∧ (coherent projectKey st →
     bad_reply (reply env) = true ∨ refusal env = None →
     coherent projectKey run.1).
Proof.
  intros Hp Hcodec run. subst run. ways Hp.
  - destruct Husable as (cached & Hget & Hparse & _).
    assert (Hc : coherent projectKey (fetchIssues projectKey force env st).1).
    { rewrite Hrun. exists cached, c. simpl. auto. }
    auto.
  - split; [congruence|]. rewrite Hrun. intros (cached & c & ? & ? & ? & ?) _.
    exists cached, c. simpl. auto.
  - assert (Hc : coherent projectKey (fetchIssues projectKey force env st).1).
    { rewrite Hrun. exists (JSON_stringify (snapshot_of env)), (snapshot_of env). simpl.
      rewrite lookup_insert_eq. repeat split; try assumption.
      unfold snapshot_of. destruct (reply env) as [|? []]; reflexivity. }
    auto.
  - split; [congruence|]. intros _ [Hb|Hw]; [congruence|].
    rewrite Hw in Hstore. destruct Hstore as [? [=]].
Qed.

(** X18: a card mounted for a project whose first fetch gets a bad answer
    shows the table with no row and no instant of last update, not the
    progress bar, and every selection then displays nothing; when the
    answer is good and the store refuses the write, the table shows the
    issues of the answer. In both cases the store is as it was. *)
Theorem first_fetch_failure_shows_empty_table (projectKey : option string) (env : Env)
    (storage : gmap string string) :
  present projectKey = true →
  let run := initial_fetch projectKey env storage in
  threw run.2 = true →
  localStorage run.1 = storage
  ∧ render projectKey run.1 = IssueTable
  ∧ (bad_reply (reply env) = true →
     issues run.1 = []
     ∧ lastUpdated run.1 = None
     ∧ ∀ sel, filteredIssues (issues run.1) sel = [])
  ∧ (bad_reply (reply env) = false →
     issues run.1 = cached_issues (snapshot_of env)
     ∧ lastUpdated run.1 = Some (now_fetched env)).
Proof.
  intros Hp run Ht. unfold run, initial_fetch in *. clear run.
  assert (Hrender : ∀ s, loading s = false → render projectKey s = IssueTable).
  { intros s Hs. unfold render. rewrite Hp, Hs. reflexivity. }
  ways Hp.
  - rewrite Hrun in Ht. discriminate.
  - rewrite Hrun. simpl. split; [reflexivity|]. split; [apply Hrender; reflexivity|].
    split; [repeat split | congruence].
  - congruence.
  - rewrite Hrun. simpl. split; [reflexivity|]. split; [apply Hrender; reflexivity|].
    split; [congruence | split; reflexivity].
Qed.

End RunFacts.

Section RunExamples.

Import Card View.
#[local] Existing Instance toy_json.

Lemma fetchIssues_without_key_witness :
  fetchIssues (Some "") true (env_at 2000 (Replied 200 (JsonData None))) stored_state
  = (stored_state, []).
Proof.
  apply (fetchIssues_without_key (Some "") true
           (env_at 2000 (Replied 200 (JsonData None))) stored_state).
  right. reflexivity.
Defined.


Lemma fetchIssues_throw_keeps_data_witness :
  data (fetchIssues (Some "ABC") true (env_at 2000 (Replied 200 JsonNull)) stored_state).1
  = data stored_state
  ∧ localStorage
      (fetchIssues (Some "ABC") true
         (env_full 2000 (Replied 200 (JsonData (Some [issue_of "ABC-7" None None]))))
         stored_state).1
    = localStorage stored_state
  ∧ issues
      (fetchIssues (Some "ABC") true
         (env_full 2000 (Replied 200 (JsonData (Some [issue_of "ABC-7" None None]))))
         stored_state).1
    = [issue_of "ABC-7" None None].
Proof.
  destruct (fetchIssues_throw_keeps_data (Some "ABC") true
              (env_at 2000 (Replied 200 JsonNull)) stored_state) as (Hiff & _ & Hkeep & _).
  destruct (fetchIssues_throw_keeps_data (Some "ABC") true
              (env_full 2000 (Replied 200 (JsonData (Some [issue_of "ABC-7" None None]))))
              stored_state) as (Hiff' & Hstore & _ & Hshown).
  split; [|split].
  - apply Hkeep; [|reflexivity]. apply Hiff. split; [discriminate | left; reflexivity].
  - apply Hstore, Hiff'. split; [discriminate | right; eexists; reflexivity].
  - apply Hshown; [discriminate | reflexivity].
Defined.

Lemma fetchIssues_store_isolated_witness :
  localStorage
    (fetchIssues (Some "XYZ") true (env_at 2000 (Replied 200 (JsonData None))) stored_state).1
    !! "jira-issues-ABC"
  = Some "snapshot@1000".
Proof.
  destruct (fetchIssues_store_isolated (Some "XYZ") true
              (env_at 2000 (Replied 200 (JsonData None))) stored_state) as [_ Hother].
  destruct (Hother "XYZ" "ABC" eq_refl) as [_ Hsame]; [discriminate|].
  etransitivity; [exact Hsame | reflexivity].
Defined.

Lemma stored_snapshot_serves_until_expiry_witness :
  network_calls
    (fetchIssues (Some "ABC") false (env_at 2000 (Rejected Js.NonError))
       (fetchIssues (Some "ABC") true (env_at 500 (Replied 200 (JsonData None)))
          (mounted ∅)).1).2
  = [].
Proof.
  destruct (stored_snapshot_serves_until_expiry (Some "ABC") true
              (env_at 500 (Replied 200 (JsonData None)))
              (env_at 2000 (Rejected Js.NonError)) (mounted ∅)
              eq_refl ltac:(discriminate) eq_refl eq_refl) as [Hiff _].
  apply Hiff. reflexivity.
Defined.

Lemma display_agrees_with_store_witness :
  coherent (Some "ABC")
    (fetchIssues (Some "ABC") true (env_at 500 (Replied 200 (JsonData None))) stored_state).1.
Proof.
  destruct (@display_agrees_with_store toy_json (Some "ABC") true
              (env_at 500 (Replied 200 (JsonData None))) stored_state eq_refl eq_refl)
    as [Hquiet _].
  apply Hquiet. reflexivity.
Defined.

Lemma first_fetch_failure_shows_empty_table_witness :
  issues (initial_fetch (Some "ABC") (env_at 0 (Replied 502 (NotJson Js.NonError))) ∅).1 = []
  ∧ issues (initial_fetch (Some "ABC")
              (env_full 0 (Replied 200 (JsonData (Some [issue_of "ABC-7" None None])))) ∅).1
    = [issue_of "ABC-7" None None].
Proof.
  assert (Ht : threw (initial_fetch (Some "ABC")
                        (env_at 0 (Replied 502 (NotJson Js.NonError))) ∅).2 = true)
    by (vm_compute; reflexivity).
  assert (Ht' : threw (initial_fetch (Some "ABC")
                         (env_full 0 (Replied 200 (JsonData (Some [issue_of "ABC-7" None None]))))
                         ∅).2 = true)
    by (vm_compute; reflexivity).
  destruct (first_fetch_failure_shows_empty_table (Some "ABC")
              (env_at 0 (Replied 502 (NotJson Js.NonError))) ∅ eq_refl Ht)
    as (_ & _ & Hbad & _).
  destruct (first_fetch_failure_shows_empty_table (Some "ABC")
              (env_full 0 (Replied 200 (JsonData (Some [issue_of "ABC-7" None None])))) ∅
              eq_refl Ht')
    as (_ & _ & _ & Hgood).
  split; [apply Hbad; reflexivity | apply Hgood; reflexivity].
Defined.

End RunExamples.

(** ** Encoding of the query *)

Section EncodingFacts.

Import Proxy.

Lemma append_assoc (a b c : string) : (a +:+ b) +:+ c = a +:+ (b +:+ c).
Proof.
  induction a as [|x a IH]; [reflexivity|]. rewrite !append_String, IH. reflexivity.
Qed.

Lemma append_length (a b : string) :
  String.length (a +:+ b) = (String.length a + String.length b)%nat.
Proof. induction a as [|x a IH]; [reflexivity|]. rewrite append_String. simpl. rewrite IH. reflexivity. Qed.

Lemma append_cancel_l (a x y : string) : a +:+ x = a +:+ y → x = y.
Proof.
  induction a as [|c a IH]; [exact id|]. rewrite !append_String. intros [= Heq]. auto.
Qed.

Lemma append_cancel_r (a x y : string) : x +:+ a = y +:+ a → x = y.
Proof.
  revert y. induction x as [|c x IH]; intros [|d y] Heq.
  - reflexivity.
  - apply (f_equal String.length) in Heq. rewrite !append_length in Heq. simpl in Heq. lia.
  - apply (f_equal String.length) in Heq. rewrite !append_length in Heq. simpl in Heq. lia.
  - rewrite !append_String in Heq. injection Heq as -> Heq. f_equal. auto.
Qed.

Lemma encodeURIComponent_app (a b : string) :
  encodeURIComponent (a +:+ b) = encodeURIComponent a +:+ encodeURIComponent b.
Proof.
  induction a as [|c a IH]; [reflexivity|].
  rewrite append_String, !encodeURIComponent_String, IH, append_assoc. reflexivity.
Qed.

Lemma encodeURIComponent_unreserved (s : string) :
  forallb unreserved (list_ascii_of_string s) = true → encodeURIComponent s = s.
Proof.
  induction s as [|c s IH]; [reflexivity|]. simpl. rewrite andb_true_iff. intros [Hc Hs].
  unfold encode_byte. rewrite Hc, (IH Hs). reflexivity.
Qed.

Lemma encode_byte_length (c : ascii) :
  (1 ≤ String.length (encode_byte c) ≤ 3)%nat.
Proof. unfold encode_byte. destruct (unreserved c); simpl; lia. Qed.

(** X19: [encodeURIComponent] loses nothing: turning each escape back
    into its byte gives the text again, so two different texts never
    have the same encoding; and it encodes piece by piece. *)
Theorem encodeURIComponent_faithful (s t : string) :
  percent_decode (encodeURIComponent s) = Some s
  ∧ (encodeURIComponent s = encodeURIComponent t → s = t)
  ∧ encodeURIComponent (s +:+ t) = encodeURIComponent s +:+ encodeURIComponent t.
Proof.
  split; [apply percent_decode_encode|]. split; [|apply encodeURIComponent_app].
  intros Heq. apply (f_equal percent_decode) in Heq.
  rewrite !percent_decode_encode in Heq. congruence.
Qed.

Lemma encodeURIComponent_faithful_witness : "a b" = "a b".
Proof.
  destruct (encodeURIComponent_faithful "a b" "a b") as (_ & H & _).
  apply H. reflexivity.
Defined.

(** X20: the encoding is made of letters, digits, the marks
    [- _ . ! ~ * ' ( )] and escapes only: none of the characters that
    shape a URL ([&], [=], [#], [?], [/], [+], the space) occurs in it,
    whatever the text; it has between one and three characters for each
    byte of the text. *)
Theorem encodeURIComponent_no_delimiter (s : string) :
  (∀ c, c ∈ list_ascii_of_string (encodeURIComponent s) →
        unreserved c = true ∨ c = "%"%char)
  ∧ (∀ c, c ∈ list_ascii_of_string "&=#?/+ " →
          c ∉ list_ascii_of_string (encodeURIComponent s))
  ∧ (String.length s ≤ String.length (encodeURIComponent s) ≤ 3 * String.length s)%nat.
Proof.
  assert (Hsafe : ∀ c, c ∈ list_ascii_of_string (encodeURIComponent s) →
            query_safe c = true).
  { intros c Hc. pose proof (encodeURIComponent_safe s) as Hall.
    rewrite forallb_forall in Hall. apply Hall, list_elem_of_In. exact Hc. }
  split; [|split].
  - intros c Hc. apply Hsafe in Hc. unfold query_safe in Hc.
    apply orb_true_iff in Hc as [Hc|Hc]; [left; exact Hc|].
    right. apply Ascii.eqb_eq. exact Hc.
  - intros c Hc Hin. apply Hsafe in Hin. simpl in Hc.
    rewrite !elem_of_cons, elem_of_nil in Hc.
    destruct Hc as [->|[->|[->|[->|[->|[->|[->|[]]]]]]]]; discriminate Hin.
  - clear Hsafe. induction s as [|c s IH]; [simpl; lia|].
    rewrite encodeURIComponent_String, append_length.
    pose proof (encode_byte_length c) as Hb.
    change (String.length (String c s)) with (S (String.length s)). lia.
Qed.

Lemma encodeURIComponent_no_delimiter_witness :
  "&"%char ∉ list_ascii_of_string (encodeURIComponent "A&maxResults=1").
Proof.
  destruct (encodeURIComponent_no_delimiter "A&maxResults=1") as (_ & H & _).
  apply H. left.
Defined.

(** X21: the address of the search, for every project key: the base URL,
    the path of the search, the encoding of "project=", the encoding of
    the key, the encoding of the rest of the query, and the limit. A key
    made of letters, digits and the unreserved marks stands in it as it
    is. *)
Theorem search_url_shape (jiraUrl projectKey : string) :
  search_url jiraUrl projectKey
  = jiraUrl +:+ "/rest/api/2/search?jql=project%3D" +:+ encodeURIComponent projectKey
    +:+ "%20AND%20status%20NOT%20IN%20(Closed%2C%20Resolved%2C%20Done)&maxResults=1000"
  ∧ (forallb unreserved (list_ascii_of_string projectKey) = true →
     search_url jiraUrl projectKey
     = jiraUrl +:+ "/rest/api/2/search?jql=project%3D" +:+ projectKey
       +:+ "%20AND%20status%20NOT%20IN%20(Closed%2C%20Resolved%2C%20Done)&maxResults=1000").
Proof.
  assert (Hshape : search_url jiraUrl projectKey
    = jiraUrl +:+ "/rest/api/2/search?jql=project%3D" +:+ encodeURIComponent projectKey
      +:+ "%20AND%20status%20NOT%20IN%20(Closed%2C%20Resolved%2C%20Done)&maxResults=1000").
  { unfold search_url, jqlQuery. rewrite !encodeURIComponent_app.
    f_equal. rewrite !append_assoc. reflexivity. }
  split; [exact Hshape|]. intros Hk. rewrite Hshape, (encodeURIComponent_unreserved _ Hk).
  reflexivity.
Qed.

Lemma search_url_shape_witness :
  search_url "https://jira.example.com" "MY_PROJ"
  = "https://jira.example.com/rest/api/2/search?jql=project%3DMY_PROJ%20AND%20status%20NOT%20IN%20(Closed%2C%20Resolved%2C%20Done)&maxResults=1000".
Proof.
  destruct (search_url_shape "https://jira.example.com" "MY_PROJ") as [_ H].
  rewrite H; reflexivity.
Defined.

(** X22: for one base URL, different project keys give different
    addresses: the key can be read back from the address. *)
Theorem search_url_injective (jiraUrl k k' : string) :
  search_url jiraUrl k = search_url jiraUrl k' → k = k'.
Proof.
  unfold search_url. intros Heq.
  apply append_cancel_l, append_cancel_l, append_cancel_r in Heq.
  apply (f_equal percent_decode) in Heq. rewrite !percent_decode_encode in Heq.
  injection Heq as Heq. unfold jqlQuery in Heq.
  apply append_cancel_l, append_cancel_r in Heq. exact Heq.
Qed.

Lemma search_url_injective_witness : "ABC" = "ABC".
Proof. apply (search_url_injective "https://jira.example.com" "ABC" "ABC"). reflexivity. Defined.

End EncodingFacts.

(** ** The route as a whole *)

Section RouteFacts.

Import Proxy.

Lemma ok_500 : Js.ok 500 = false.
Proof. reflexivity. Qed.

(** The reply and the requests by cases on the configuration. *)
Lemma issues_route_configured (config : Config) (projectKey : string) (up : Upstream)
    (jiraToken jiraUrl : string) :
  config "integrations.jira.apiToken" = inr jiraToken →
  config "integrations.jira.baseUrl" = inr jiraUrl →
  issues_route config projectKey up
  = (match relay up with inl e => internal_error e | inr r => r end,
     [search_request jiraUrl jiraToken projectKey]).
Proof.
  intros Ht Hu. unfold issues_route. rewrite Ht, Hu. destruct (relay up); reflexivity.
Qed.

Lemma relay_ok (up : Upstream) :
  Js.ok (code (match relay up with inl e => internal_error e | inr r => r end)) = true
  ↔ ∃ status text data, up = Responded status text (inr data)
                        ∧ Js.ok status = true ∧ data ≠ JNull.
Proof.
  split.
  - destruct up as [e|status text parsed]; simpl; [discriminate|].
    destruct (Js.ok status) eqn:Hok; simpl.
    + destruct parsed as [e|data]; simpl; [discriminate|].
      destruct data; simpl; try discriminate; intros _; eexists _, _, _;
        (split; [reflexivity | split; [exact Hok | discriminate]]).
    + destruct text as [e|errorText]; simpl; [discriminate | congruence].
  - intros (status & text & data & -> & Hok & Hn). simpl. rewrite Hok. simpl.
    destruct data; try reflexivity. contradiction.
Qed.

(** X23: the route sends a request upstream exactly when both values of
    the configuration can be read; it never sends more than one, and
    what it sends does not depend on what the upstream will answer. *)
Theorem issues_route_requests (config : Config) (projectKey : string) (up up' : Upstream) :
  ((issues_route config projectKey up).2 = []
   ↔ (∃ e, config "integrations.jira.apiToken" = inl e)
     ∨ (∃ e, config "integrations.jira.baseUrl" = inl e))
  ∧ (length (issues_route config projectKey up).2 ≤ 1)%nat
  ∧ (issues_route config projectKey up).2 = (issues_route config projectKey up').2.
Proof.
  unfold issues_route.
  destruct (config "integrations.jira.apiToken") as [e|jiraToken].
  { simpl. repeat split; eauto. }
  destruct (config "integrations.jira.baseUrl") as [e|jiraUrl].
  { simpl. repeat split; eauto. }
  destruct (relay up), (relay up'); simpl; repeat split; try lia; try discriminate;
    intros [[e He]|[e He]]; discriminate.
Qed.

(** X24: the reply of the route has a status of success exactly when the
    configuration is read, the upstream answers with a status of success
    and its body is JSON other than null; the reply is then 200 with
    that body, whatever the status of success of the upstream was. *)
Theorem issues_route_ok_iff (config : Config) (projectKey : string) (up : Upstream) :
  let r := (issues_route config projectKey up).1 in
  (Js.ok (code r) = true
   ↔ (∃ jiraToken, config "integrations.jira.apiToken" = inr jiraToken)
     ∧ (∃ jiraUrl, config "integrations.jira.baseUrl" = inr jiraUrl)
     ∧ ∃ status text data, up = Responded status text (inr data)
                           ∧ Js.ok status = true ∧ data ≠ JNull)
  ∧ (Js.ok (code r) = true →
     ∃ status text data, up = Responded status text (inr data)
                         ∧ r = {| code := 200; payload := data |}).
Proof.
  intros r. unfold r. clear r.
  destruct (config "integrations.jira.apiToken") as [e|jiraToken] eqn:Ht.
  { unfold issues_route. rewrite Ht. simpl. split; [|discriminate].
    split; [discriminate | intros [[t0 Ht0] _]; discriminate Ht0]. }
  destruct (config "integrations.jira.baseUrl") as [e|jiraUrl] eqn:Hu.
  { unfold issues_route. rewrite Ht, Hu. simpl. split; [|discriminate].
    split; [discriminate | intros (_ & [u0 Hu0] & _); discriminate Hu0]. }
  rewrite (issues_route_configured config projectKey up jiraToken jiraUrl Ht Hu). simpl.
  split.
  - rewrite relay_ok. split; [eauto 10 | tauto].
  - intros Hok. apply relay_ok in Hok as (status & text & data & -> & Hs & Hn).
    exists status, text, data. split; [reflexivity|]. simpl. rewrite Hs. simpl.
    destruct data; try reflexivity. contradiction.
Qed.

Lemma issues_route_ok_iff_witness :
  (issues_route sample_config "ABC" (Responded 201 (inr "") (inr (JObj [])))).1
  = {| code := 200; payload := JObj [] |}.
Proof.
  destruct (issues_route_ok_iff sample_config "ABC" (Responded 201 (inr "") (inr (JObj []))))
    as [_ H].
  destruct (H eq_refl) as (status & text & data & [= <- <- <-] & Hr). exact Hr.
Defined.

(** X25: the reply tells nothing of the configuration: with both values
    read, it is the same for every token, every base URL and every
    project key, and depends on the answer of the upstream alone. *)
Theorem issues_route_reply_hides_config (config config' : Config)
    (projectKey projectKey' : string) (up : Upstream) (jiraToken jiraUrl jiraToken' jiraUrl' : string) :
  config "integrations.jira.apiToken" = inr jiraToken →
  config "integrations.jira.baseUrl" = inr jiraUrl →
  config' "integrations.jira.apiToken" = inr jiraToken' →
  config' "integrations.jira.baseUrl" = inr jiraUrl' →
  (issues_route config projectKey up).1 = (issues_route config' projectKey' up).1.
Proof.
  intros Ht Hu Ht' Hu'.
  rewrite (issues_route_configured config projectKey up jiraToken jiraUrl Ht Hu).
  rewrite (issues_route_configured config' projectKey' up jiraToken' jiraUrl' Ht' Hu').
  reflexivity.
Qed.

Lemma issues_route_reply_hides_config_witness :
  (issues_route sample_config "ABC" (Unreachable (Js.ErrorObj "fetch failed"))).1
  = (issues_route sample_config "XYZ" (Unreachable (Js.ErrorObj "fetch failed"))).1.
Proof.
  apply (issues_route_reply_hides_config sample_config sample_config "ABC" "XYZ"
           (Unreachable (Js.ErrorObj "fetch failed"))
           "s3cret" "https://jira.example.com" "s3cret" "https://jira.example.com");
    reflexivity.
Defined.

End RouteFacts.

(** ** The card behind the route *)

Section EndToEndFacts.

Import Card View.
Context `{Json}.

(** X26: the card behind the route. When the card asks the route and the
    route cannot read its configuration, cannot reach the upstream, or
    gets from it a status that is not a success, the response the card
    receives is not a success, whatever its body: the run throws and the
    card keeps the issues, the instant of the last update and the store
    it had. *)
Theorem card_survives_route_failure (config : Proxy.Config) (routeKey : string)
    (up : Proxy.Upstream) (projectKey : option string) (force : bool) (env : Env) (st : State)
    (body : Payload) :
  reply env = Replied (Proxy.code (Proxy.issues_route config routeKey up).1) body →
  ((∃ e, config "integrations.jira.apiToken" = inl e)
   ∨ (∃ e, config "integrations.jira.baseUrl" = inl e)
   ∨ (∃ e, up = Proxy.Unreachable e)
   ∨ (∃ status text parsed, up = Proxy.Responded status text parsed ∧ Js.ok status = false)) →
  let run := fetchIssues projectKey force env st in
  network_calls run.2 ≠ [] →
  threw run.2 = true ∧ data run.1 = data st ∧ loading run.1 = false.
Proof.
  intros Hreply Hfail run Hcall.
  assert (Hnot : Js.ok (Proxy.code (Proxy.issues_route config routeKey up).1) = false).
  { unfold Proxy.issues_route.
    destruct Hfail as [[e He]|[[e He]|[[e ->]|(status & text & parsed & -> & Hok)]]].
    - rewrite He. reflexivity.
    - destruct (config "integrations.jira.apiToken"); [reflexivity|]. rewrite He. reflexivity.
    - destruct (config "integrations.jira.apiToken"); [reflexivity|].
      destruct (config "integrations.jira.baseUrl"); reflexivity.
    - destruct (config "integrations.jira.apiToken"); [reflexivity|].
      destruct (config "integrations.jira.baseUrl"); [reflexivity|].
      simpl. rewrite Hok. simpl. destruct text; simpl; [reflexivity | exact Hok]. }
  assert (Hbad : bad_reply (reply env) = true).
  { rewrite Hreply. simpl. rewrite Hnot. reflexivity. }
  destruct (present projectKey) eqn:Hp.
  - destruct (fetchIssues_ways projectKey force env st Hp)
      as [(c & _ & _ & Hr)|[(_ & Hr & _ & Ht)|[(Hgood & _)|(Hgood & _)]]];
      try fold run in Hr; try fold run in Ht.
    + rewrite Hr in Hcall. contradiction.
    + rewrite Ht, Hr. repeat split.
    + congruence.
    + congruence.
  - unfold run, fetchIssues in Hcall. rewrite Hp in Hcall. contradiction.
Qed.

End EndToEndFacts.

Section EndToEndExamples.

Import Card View.
#[local] Existing Instance toy_json.

Lemma card_survives_route_failure_witness :
  data (fetchIssues (Some "ABC") true
          (env_at 2000 (Replied 401 (JsonData None))) stored_state).1
  = data stored_state.
Proof.
  apply (card_survives_route_failure Proxy.sample_config "ABC"
           (Proxy.Responded 401 (inr "Unauthorized") (inl Js.NonError))
           (Some "ABC") true (env_at 2000 (Replied 401 (JsonData None))) stored_state
           (JsonData None)).
  - reflexivity.
  - right. right. right. eexists _, _, _. split; reflexivity.
  - discriminate.
Defined.

End EndToEndExamples.

(** ** More on the relative time label *)

Section JustNowFacts.

Import TimeAgo.

Lemma not_just_now (s : string) : s +:+ " ago" ≠ "just now".
Proof.
  intros Heq.
  assert (Hl : String.length s = 4%nat).
  { apply (f_equal String.length) in Heq. rewrite append_length in Heq. simpl in Heq. lia. }
  destruct s as [|a [|b [|c [|d [|e s]]]]]; try discriminate Hl.
  cbv [String.append] in Heq. discriminate Heq.
Qed.

Lemma label_not_just_now (n : Z) (unit : string) : label n unit ≠ "just now".
Proof.
  unfold label. rewrite <- !append_assoc. apply not_just_now.
Qed.

(** X27: the label is "just now" exactly when less than 60 seconds have
    elapsed; from 60 seconds on the label always ends in " ago". *)
Theorem just_now_iff (now timestamp : Z) :
  (formatTimeAgo now timestamp = "just now" ↔ now - timestamp < 60 * 1000)
  ∧ (60 * 1000 ≤ now - timestamp →
     ∃ s, formatTimeAgo now timestamp = s +:+ " ago").
Proof.
  rewrite formatTimeAgo_cases. cbv zeta. split.
  - repeat case_bool_decide; split; intros Hx; try reflexivity; try lia;
      exfalso; exact (label_not_just_now _ _ Hx).
  - intros Hge. repeat case_bool_decide; try lia; unfold label;
      rewrite <- !append_assoc; eexists; reflexivity.
Qed.

Lemma just_now_iff_witness : ∃ s, formatTimeAgo 60000 0 = s +:+ " ago".
Proof. apply (just_now_iff 60000 0). lia. Defined.

End JustNowFacts.

Section MoreExamples.

Import Card View Proxy.

Lemma options_at_most_issues_witness :
  types [issue_of "A-1" None (Some "Open"); issue_of "A-2" None None] = [].
Proof.
  apply (options_at_most_issues issuetype_name
           [issue_of "A-1" None (Some "Open"); issue_of "A-2" None None]).
  intros i Hi. rewrite !elem_of_cons, elem_of_nil in Hi.
  destruct Hi as [->|[->|[]]]; left; reflexivity.
Defined.

Lemma issues_route_requests_witness :
  (issues_route (λ _, inl (Js.ErrorObj "Missing required config value")) "ABC"
     (Responded 200 (inr "") (inr (JObj [])))).2 = [].
Proof.
  destruct (issues_route_requests (λ _, inl (Js.ErrorObj "Missing required config value"))
              "ABC" (Responded 200 (inr "") (inr (JObj []))) (Unreachable Js.NonError))
    as [Hiff _].
  apply Hiff. left. eexists. reflexivity.
Defined.

End MoreExamples.
